(** * The adaptive quiz engine of boardside-chess-coach

    A shallow embedding of [src/domain/quiz/types.ts],
    [src/domain/quiz/ArchetypeCalculator.ts] and
    [src/domain/quiz/QuizEngine.ts], and the properties of the engine that
    the specification states.

    Conventions of the embedding.
    - A JavaScript [number] that the program computes with fractions
      (confidence, progress) is an IEEE 754 binary64 value, here a
      [spec_float] with the operations of the Standard Library's
      specification of binary64 ([prec = 53], [emax = 1024]).
    - The integer fields (scores, array lengths, timestamps) are [Z]; they
      enter the floating-point computations through [Num.of_Z], the nearest
      binary64 value.
    - The [Map] of the engine is a [gmap], the [Set] a [gset], arrays are
      lists.
    - A method of [QuizEngine] is a computation in the monad [M]: it reads
      and writes the engine object and either returns or throws; a throw
      keeps the state reached so far, as in JavaScript. *)

From Stdlib Require Import ZArith Lia SpecFloat QArith Qpower Lqa.
From Stdlib Require Floats.
From stdpp Require Import base option list gmap strings.

#[local] Set Warnings "-clear-no-such-hyp".

Local Open Scope Z_scope.

(** ** JavaScript numbers *)

Module Num.

Definition prec : Z := 53.
Definition emax : Z := 1024.

Abbreviation number := spec_float.

(** An integer as a number: the nearest binary64 value (ties to even),
    infinite beyond the range. *)
Definition of_Z (z : Z) : number := binary_normalize prec emax z 0 false.

Definition add : number -> number -> number := SFadd prec emax.
Definition mul : number -> number -> number := SFmul prec emax.
Definition div : number -> number -> number := SFdiv prec emax.

(** A decimal literal [n/d] (as [0.7] is [7/10]): the binary64 value
    nearest to the fraction, which is what the correctly rounded division
    of the two integers yields. *)
Definition lit (n d : Z) : number := div (of_Z n) (of_Z d).

(** [Math.abs] *)
Definition abs : number -> number := SFabs.

(** [Math.min] of two numbers: NaN if either is NaN, and [-0] is below
    [+0]. *)
Definition min (x y : number) : number :=
  match SFcompare x y with
  | None => S754_nan
  | Some Lt => x
  | Some Gt => y
  | Some Eq =>
      match x, y with
      | S754_zero sx, S754_zero sy => S754_zero (sx || sy)
      | _, _ => x
      end
  end.

(** [x >= y] *)
Definition geb (x y : number) : bool := SFleb y x.

(** [Math.round]: the integer [floor (x + 1/2)], computed exactly; NaN,
    the infinities and the zeros are returned as they are, and a result
    that is zero keeps the sign of [x]. *)
Definition round (x : number) : number :=
  match x with
  | S754_finite s m e =>
      if 0 <=? e then x
      else binary_normalize prec emax
             ((2 * cond_Zopp s (Z.pos m) + 2 ^ (- e)) / 2 ^ (1 - e)) 0 s
  | _ => x
  end.


End Num.

Abbreviation number := spec_float.

(** [array.length], an integer. *)
Definition len {A : Type} (l : list A) : Z := Z.of_nat (length l).

(** ** types.ts *)

Inductive Archetype := TJ | TP | FJ | FP | Neutral.

Inductive QuestionDimension := T_F | J_P.

Record Answer := {
  a_id : string;
  a_text : string;
  scoreTF : Z;
  scoreJP : Z;
}.

Record Question := {
  q_id : string;
  q_text : string;
  dimension : QuestionDimension;
  answers : list Answer;
}.

Record QuizResponse := {
  questionId : string;
  answerId : string;
  timestamp : Z;
}.

Record QuizSession := {
  responses : list QuizResponse;
  currentScoreTF : Z;
  currentScoreJP : Z;
  isComplete : bool;
  archetype : option Archetype;
  confidence : number;
}.

Record ArchetypeResult := {
  r_archetype : Archetype;
  r_confidence : number;
  r_scoreTF : Z;
  r_scoreJP : Z;
  r_explanation : string;
}.

Definition CONFIDENCE_THRESHOLD : Z := 80.
Definition MINIMUM_QUESTIONS : Z := 5.
Definition MAXIMUM_QUESTIONS : Z := 10.

Definition ARCHETYPE_DESCRIPTIONS (a : Archetype) : string :=
  match a with
  | TJ => "Tactical-Structured: You learn best through systematic tactical training with clear patterns and rules."
  | TP => "Tactical-Experimental: You learn best through tactical puzzles and experimentation with different combinations."
  | FJ => "Strategic-Structured: You learn best through positional understanding and structured study of strategic principles."
  | FP => "Strategic-Experimental: You learn best through exploring creative strategic ideas and playing various positions."
  | Neutral => "Balanced: You benefit from a mix of tactical and strategic content with varied learning approaches."
  end.

#[global] Instance Archetype_eq_dec : EqDecision Archetype.
Proof. solve_decision. Defined.

(** ** ArchetypeCalculator.ts *)

Definition determineArchetype (scoreTF scoreJP : Z) : Archetype :=
  let threshold := 2 in
  if (Z.abs scoreTF <? threshold) && (Z.abs scoreJP <? threshold) then Neutral
  else
    let isThinking := 0 <=? scoreTF in
    let isJudging := 0 <=? scoreJP in
    if isThinking && isJudging then TJ
    else if isThinking && negb isJudging then TP
    else if negb isThinking && isJudging then FJ
    else FP.

Definition calculateConfidence (scoreTF scoreJP responseCount : Z) : number :=
  if responseCount =? 0 then Num.of_Z 0
  else
    let avgMagnitude :=
      Num.div (Num.add (Num.abs (Num.of_Z scoreTF)) (Num.abs (Num.of_Z scoreJP)))
              (Num.mul (Num.of_Z responseCount) (Num.of_Z 2)) in
    let maxPossibleAvg := Num.of_Z 2 in
    let baseConfidence := Num.min (Num.div avgMagnitude maxPossibleAvg) (Num.of_Z 1) in
    let responseFactor :=
      Num.min (Num.div (Num.of_Z responseCount) (Num.of_Z 10)) (Num.of_Z 1) in
    let confidence :=
      Num.add (Num.mul baseConfidence (Num.lit 7 10))
              (Num.mul responseFactor (Num.lit 3 10)) in
    Num.round (Num.mul confidence (Num.of_Z 100)).

(** The loop of [calculateArchetype]: the scores of the answers that the
    lookup knows, summed over the responses. *)
Definition sumScores (responses : list QuizResponse)
    (answerLookup : gmap string Answer) : Z * Z :=
  foldl (fun totals response =>
           match answerLookup !! answerId response with
           | Some answer =>
               (totals.1 + scoreTF answer, totals.2 + scoreJP answer)
           | None => totals
           end)
        (0, 0) responses.

Definition calculateArchetype (responses : list QuizResponse)
    (answerLookup : gmap string Answer) : ArchetypeResult :=
  if len responses =? 0 then
    {| r_archetype := Neutral;
       r_confidence := Num.of_Z 0;
       r_scoreTF := 0;
       r_scoreJP := 0;
       r_explanation := ARCHETYPE_DESCRIPTIONS Neutral |}
  else
    let '(totalTF, totalJP) := sumScores responses answerLookup in
    let archetype := determineArchetype totalTF totalJP in
    let confidence := calculateConfidence totalTF totalJP (len responses) in
    {| r_archetype := archetype;
       r_confidence := confidence;
       r_scoreTF := totalTF;
       r_scoreJP := totalJP;
       r_explanation := ARCHETYPE_DESCRIPTIONS archetype |}.

Definition hasClearArchetype (scoreTF scoreJP : Z) : bool :=
  let threshold := 2 in
  (threshold <=? Z.abs scoreTF) || (threshold <=? Z.abs scoreJP).

(** ** QuizEngine.ts *)

(** The engine object: the fields of [class QuizEngine]. *)
Record QuizEngine := {
  questions : list Question;
  session : QuizSession;
  answerLookup : gmap string Answer;
}.

(** The three [throw new Error (...)] of [answerQuestion], by message. *)
Inductive QuizError :=
  | QuizAlreadyComplete
  | QuestionNotFound (questionId : string)
  | AnswerNotFound (answerId questionId : string).

(** *** The monad of methods

    A method runs on the engine object [this]; it returns a value or throws,
    and in both cases leaves the object in the state it reached. *)
Definition M (A : Type) : Type := QuizEngine -> (QuizError + A) * QuizEngine.

#[global] Instance M_ret : MRet M := fun A a this => (inr a, this).

#[global] Instance M_bind : MBind M := fun A B k m this =>
  match m this with
  | (inl e, this') => (inl e, this')
  | (inr a, this') => k a this'
  end.

Definition throw {A : Type} (e : QuizError) : M A := fun this => (inl e, this).

(** [this] *)
Definition get : M QuizEngine := fun this => (inr this, this).

(** [this.session = s] and the assignments to one field of [this.session]. *)
Definition with_session (s : QuizSession) (this : QuizEngine) : QuizEngine :=
  {| questions := questions this; session := s;
     answerLookup := answerLookup this |}.

Definition set_session (s : QuizSession) : M unit := fun this =>
  (inr tt, with_session s this).

Definition modify_session (f : QuizSession -> QuizSession) : M unit :=
  this ← get; set_session (f (session this)).

Definition with_responses (v : list QuizResponse) (s : QuizSession) :=
  {| responses := v; currentScoreTF := currentScoreTF s;
     currentScoreJP := currentScoreJP s; isComplete := isComplete s;
     archetype := archetype s; confidence := confidence s |}.

Definition with_currentScoreTF (v : Z) (s : QuizSession) :=
  {| responses := responses s; currentScoreTF := v;
     currentScoreJP := currentScoreJP s; isComplete := isComplete s;
     archetype := archetype s; confidence := confidence s |}.

Definition with_currentScoreJP (v : Z) (s : QuizSession) :=
  {| responses := responses s; currentScoreTF := currentScoreTF s;
     currentScoreJP := v; isComplete := isComplete s;
     archetype := archetype s; confidence := confidence s |}.

Definition with_isComplete (v : bool) (s : QuizSession) :=
  {| responses := responses s; currentScoreTF := currentScoreTF s;
     currentScoreJP := currentScoreJP s; isComplete := v;
     archetype := archetype s; confidence := confidence s |}.

Definition with_archetype (v : option Archetype) (s : QuizSession) :=
  {| responses := responses s; currentScoreTF := currentScoreTF s;
     currentScoreJP := currentScoreJP s; isComplete := isComplete s;
     archetype := v; confidence := confidence s |}.

Definition with_confidence (v : number) (s : QuizSession) :=
  {| responses := responses s; currentScoreTF := currentScoreTF s;
     currentScoreJP := currentScoreJP s; isComplete := isComplete s;
     archetype := archetype s; confidence := v |}.

(** *** The methods *)

Definition initializeSession : QuizSession :=
  {| responses := [];
     currentScoreTF := 0;
     currentScoreJP := 0;
     isComplete := false;
     archetype := None;
     confidence := Num.of_Z 0 |}.

(** The two nested loops of [buildAnswerLookup]; a later [set] of an id
    replaces an earlier one. *)
Definition buildAnswerLookup (questions : list Question) : gmap string Answer :=
  foldl (fun lookup question =>
           foldl (fun lookup answer => <[a_id answer := answer]> lookup)
                 lookup (answers question))
        ∅ questions.

(** [new QuizEngine (questions)] *)
Definition newQuizEngine (questions : list Question) : QuizEngine :=
  {| questions := questions;
     session := initializeSession;
     answerLookup := buildAnswerLookup questions |}.

(** The methods that only read are functions of the object. *)
Definition shouldTerminateEarly (this : QuizEngine) : bool :=
  let responseCount := len (responses (session this)) in
  if responseCount <? MINIMUM_QUESTIONS then false
  else Num.geb (confidence (session this)) (Num.of_Z CONFIDENCE_THRESHOLD).

(** [getSession] returns a copy of the session record. *)
Definition getSession (this : QuizEngine) : QuizSession := session this.

(** [isComplete ()] *)
Definition getIsComplete (this : QuizEngine) : bool := isComplete (session this).

Definition getArchetype (this : QuizEngine) : option Archetype :=
  archetype (session this).

Definition getConfidence (this : QuizEngine) : number :=
  confidence (session this).

Definition getResponseCount (this : QuizEngine) : Z :=
  len (responses (session this)).

Definition getProgress (this : QuizEngine) : number :=
  Num.round
    (Num.mul (Num.div (Num.of_Z (len (responses (session this))))
                      (Num.of_Z MAXIMUM_QUESTIONS))
             (Num.of_Z 100)).

Definition completeQuiz : M unit :=
  this ← get;
  let result := calculateArchetype (responses (session this)) (answerLookup this) in
  modify_session (with_isComplete true);;
  modify_session (with_archetype (Some (r_archetype result)));;
  modify_session (with_confidence (r_confidence result)).

(** The question that [getNextQuestion] looks up: the first one of the bank
    whose id is not among the answered ones. *)
Definition nextUnanswered (questions : list Question) (answeredIds : gset string)
    : option Question :=
  find (fun q => negb (bool_decide (q_id q ∈ answeredIds))) questions.

Definition getNextQuestion : M (option Question) :=
  this ← get;
  if isComplete (session this) then mret None
  else if shouldTerminateEarly this then completeQuiz;; mret None
  else
    let answeredIds : gset string :=
      list_to_set (questionId <$> responses (session this)) in
    mret (nextUnanswered (questions this) answeredIds).

(** [now] is the value that [Date.now ()] returns in this call. *)
Definition answerQuestion (questionId answerId : string) (now : Z) : M unit :=
  this ← get;
  if isComplete (session this) then throw QuizAlreadyComplete
  else
    match find (fun q => bool_decide (q_id q = questionId)) (questions this) with
    | None => throw (QuestionNotFound questionId)
    | Some question =>
        match find (fun a => bool_decide (a_id a = answerId)) (answers question) with
        | None => throw (AnswerNotFound answerId questionId)
        | Some answer =>
            let response :=
              {| questionId := questionId; answerId := answerId;
                 timestamp := now |} in
            modify_session (fun s => with_responses (responses s ++ [response]) s);;
            modify_session (fun s =>
              with_currentScoreTF (currentScoreTF s + scoreTF answer) s);;
            modify_session (fun s =>
              with_currentScoreJP (currentScoreJP s + scoreJP answer) s);;
            modify_session (fun s =>
              with_confidence
                (calculateConfidence (currentScoreTF s) (currentScoreJP s)
                                     (len (responses s))) s);;
            this ← get;
            if (MAXIMUM_QUESTIONS <=? len (responses (session this)))
               || shouldTerminateEarly this
            then completeQuiz
            else mret tt
        end
    end.

Definition reset : M unit := set_session initializeSession.

(** *** Runs of an engine

    The calls of a host that change the engine; the reading methods are
    functions of the object and leave it as it is.  A call that throws
    leaves the object in the state of the throw, and the host goes on. *)
Inductive Call :=
  | GetNextQuestion
  | AnswerQuestion (questionId answerId : string) (now : Z)
  | Reset.

Definition call (c : Call) (this : QuizEngine) : QuizEngine :=
  match c with
  | GetNextQuestion => (getNextQuestion this).2
  | AnswerQuestion questionId answerId now =>
      (answerQuestion questionId answerId now this).2
  | Reset => (reset this).2
  end.

Definition runFrom (this : QuizEngine) (calls : list Call) : QuizEngine :=
  foldl (fun this c => call c this) this calls.

(** The engine after [calls] on a new engine over [questions]: the
    reachable states are the values of [run]. *)
Definition run (questions : list Question) (calls : list Call) : QuizEngine :=
  runFrom (newQuizEngine questions) calls.

(** The ids of the questions that have a response. *)
Definition answeredIds (this : QuizEngine) : gset string :=
  list_to_set (questionId <$> responses (session this)).

(** The answers of the whole bank, in the order [buildAnswerLookup] visits
    them, and the data contract on their ids. *)
Definition allAnswers (questions : list Question) : list Answer :=
  concat (answers <$> questions).

Definition uniqueAnswerIds (questions : list Question) : Prop :=
  NoDup (a_id <$> allAnswers questions).

(** The question bank of the engine's unit tests. *)
Definition mkAnswer (id : string) (tf jp : Z) : Answer :=
  {| a_id := id; a_text := id; scoreTF := tf; scoreJP := jp |}.

Definition mkQuestion (id : string) (d : QuestionDimension) (a1 a2 : Answer)
    : Question :=
  {| q_id := id; q_text := id; dimension := d; answers := [a1; a2] |}.

Definition SAMPLE_QUESTIONS : list Question :=
  [ mkQuestion "q1" T_F (mkAnswer "q1a1" 2 0) (mkAnswer "q1a2" (-2) 0);
    mkQuestion "q2" J_P (mkAnswer "q2a1" 0 2) (mkAnswer "q2a2" 0 (-2));
    mkQuestion "q3" T_F (mkAnswer "q3a1" 2 0) (mkAnswer "q3a2" (-2) 0);
    mkQuestion "q4" J_P (mkAnswer "q4a1" 0 2) (mkAnswer "q4a2" 0 (-2));
    mkQuestion "q5" T_F (mkAnswer "q5a1" 2 0) (mkAnswer "q5a2" (-2) 0);
    mkQuestion "q6" J_P (mkAnswer "q6a1" 0 2) (mkAnswer "q6a2" 0 (-2));
    mkQuestion "q7" T_F (mkAnswer "q7a1" 2 0) (mkAnswer "q7a2" (-2) 0);
    mkQuestion "q8" J_P (mkAnswer "q8a1" 0 2) (mkAnswer "q8a2" 0 (-2));
    mkQuestion "q9" T_F (mkAnswer "q9a1" 2 0) (mkAnswer "q9a2" (-2) 0);
    mkQuestion "q10" J_P (mkAnswer "q10a1" 0 2) (mkAnswer "q10a2" 0 (-2)) ].

(** ** Quiz.tsx

    The page that drives the engine.  Its state is the engine object it
    holds, its four state variables, and the archetype and confidence of the
    archetype context; [quizQuestionsData] is the bank the page imports.  An
    event handler runs on the state of the last render, and the state
    setters it has called take effect when it returns or throws. *)
Module Quiz.

Record State := {
  quizEngine : QuizEngine;
  currentQuestion : option Question;
  responses : list QuizResponse;
  isComplete : bool;
  result : option ArchetypeResult;
  profile : option (Archetype * number);
}.

Definition setQuizEngine (v : QuizEngine) (p : State) : State :=
  {| quizEngine := v; currentQuestion := currentQuestion p;
     responses := responses p; isComplete := isComplete p;
     result := result p; profile := profile p |}.

Definition setCurrentQuestion (v : option Question) (p : State) : State :=
  {| quizEngine := quizEngine p; currentQuestion := v;
     responses := responses p; isComplete := isComplete p;
     result := result p; profile := profile p |}.

Definition setResponses (v : list QuizResponse) (p : State) : State :=
  {| quizEngine := quizEngine p; currentQuestion := currentQuestion p;
     responses := v; isComplete := isComplete p;
     result := result p; profile := profile p |}.

Definition setIsComplete (v : bool) (p : State) : State :=
  {| quizEngine := quizEngine p; currentQuestion := currentQuestion p;
     responses := responses p; isComplete := v;
     result := result p; profile := profile p |}.

Definition setResult (v : option ArchetypeResult) (p : State) : State :=
  {| quizEngine := quizEngine p; currentQuestion := currentQuestion p;
     responses := responses p; isComplete := isComplete p;
     result := v; profile := profile p |}.

(** [setArchetype] and [hasArchetype] of the archetype context. *)
Definition setArchetype (newArchetype : Archetype) (newConfidence : number)
    (p : State) : State :=
  {| quizEngine := quizEngine p; currentQuestion := currentQuestion p;
     responses := responses p; isComplete := isComplete p;
     result := result p; profile := Some (newArchetype, newConfidence) |}.

Definition hasArchetype (p : State) : bool :=
  match profile p with Some _ => true | None => false end.

(** The first render and its effect, which loads the first question;
    [stored] is the profile that the context has loaded. *)
Definition mount (quizQuestionsData : list Question)
    (stored : option (Archetype * number)) : State :=
  let '(question, engine) := getNextQuestion (newQuizEngine quizQuestionsData) in
  {| quizEngine := engine;
     currentQuestion := match question with inr q => q | inl _ => None end;
     responses := [];
     isComplete := false;
     result := None;
     profile := stored |}.

Definition completeQuiz (quizQuestionsData : list Question)
    (finalResponses : list QuizResponse) (p : State) : State :=
  let answerLookup :=
    foldl (fun lookup q =>
             foldl (fun lookup a => <[a_id a := a]> lookup) lookup (answers q))
          (∅ : gmap string Answer) quizQuestionsData in
  let archetypeResult := calculateArchetype finalResponses answerLookup in
  setArchetype (r_archetype archetypeResult) (r_confidence archetypeResult)
    (setIsComplete true (setResult (Some archetypeResult) p)).

(** [now] is what [Date.now ()] returns to the handler, [engineNow] what it
    returns to the engine. *)
Definition handleAnswer (quizQuestionsData : list Question) (answer : Answer)
    (now engineNow : Z) (p : State) : State :=
  match currentQuestion p with
  | None => p
  | Some question =>
      let response :=
        {| questionId := q_id question; answerId := a_id answer;
           timestamp := now |} in
      let newResponses := responses p ++ [response] in
      let p := setResponses newResponses p in
      match answerQuestion (q_id question) (a_id answer) engineNow
                           (quizEngine p) with
      | (inl _, engine) => setQuizEngine engine p
      | (inr _, engine) =>
          let p := setQuizEngine engine p in
          if shouldTerminateEarly engine
          then completeQuiz quizQuestionsData newResponses p
          else
            match getNextQuestion engine with
            | (inl _, engine) => setQuizEngine engine p
            | (inr (Some nextQuestion), engine) =>
                setCurrentQuestion (Some nextQuestion) (setQuizEngine engine p)
            | (inr None, engine) =>
                completeQuiz quizQuestionsData newResponses
                             (setQuizEngine engine p)
            end
      end
  end.

(** What the page renders: the screen of a visitor who has an archetype and
    has not answered yet, the result, the loading notice, or the current
    question with a button for each of its answers. *)
Inductive Screen :=
  | AlreadyTaken
  | Completed (result : ArchetypeResult)
  | Loading
  | Asking (question : Question).

Definition render (p : State) : Screen :=
  if hasArchetype p && negb (isComplete p) && (len (responses p) =? 0)
  then AlreadyTaken
  else
    match isComplete p, result p with
    | true, Some r => Completed r
    | _, _ =>
        match currentQuestion p with
        | None => Loading
        | Some question => Asking question
        end
    end.

(** A click on the answer button number [button] of the screen, if the
    screen has it. *)
Record Click := { button : nat; now : Z; engineNow : Z }.

Definition click (quizQuestionsData : list Question) (c : Click) (p : State)
    : State :=
  match render p with
  | Asking question =>
      match answers question !! button c with
      | Some answer =>
          handleAnswer quizQuestionsData answer (now c) (engineNow c) p
      | None => p
      end
  | _ => p
  end.

(** The page after the clicks of a visit. *)
Definition visit (quizQuestionsData : list Question)
    (stored : option (Archetype * number)) (clicks : list Click) : State :=
  foldl (fun p c => click quizQuestionsData c p)
        (mount quizQuestionsData stored) clicks.

End Quiz.

(** * Properties *)

(** ** Numbers against the machine's binary64 *)

(** The literals and the arithmetic of [Num] agree with the primitive
    (hardware) floating-point numbers of Rocq where the program uses them. *)
Module Hardware.

Import PrimFloat FloatOps.

#[local] Set Warnings "-inexact-float".

Example lit_7_10_is_0_7 : Prim2SF 0.7%float = Num.lit 7 10.
Proof. vm_compute. reflexivity. Qed.

Example lit_3_10_is_0_3 : Prim2SF 0.3%float = Num.lit 3 10.
Proof. vm_compute. reflexivity. Qed.

Example weighted_sum_agrees :
  Prim2SF ((1 * 0.7 + 0.5 * 0.3) * 100)%float
  = Num.mul (Num.add (Num.mul (Num.of_Z 1) (Num.lit 7 10))
                     (Num.mul (Num.lit 1 2) (Num.lit 3 10)))
            (Num.of_Z 100).
Proof. vm_compute. reflexivity. Qed.

Example quotient_agrees :
  Prim2SF (7 / (3 * 2) / 2)%float
  = Num.div (Num.div (Num.of_Z 7) (Num.mul (Num.of_Z 3) (Num.of_Z 2)))
            (Num.of_Z 2).
Proof. vm_compute. reflexivity. Qed.

End Hardware.

(** [Math.round] rounds halves up, keeps the sign of a zero result, and
    works on the exact value; [Math.min] passes NaN on. *)
Example round_half_up : Num.round (Num.lit 5 2) = Num.of_Z 3.
Proof. vm_compute. reflexivity. Qed.

Example round_negative_half :
  Num.round (SFopp (Num.lit 5 2)) = Num.of_Z (-2)
  /\ Num.round (SFopp (Num.lit 1 2)) = S754_zero true.
Proof. split; vm_compute; reflexivity. Qed.

Example round_below_half :
  Num.round (S754_finite false 9007199254740991 (-54)) = Num.of_Z 0.
Proof. vm_compute. reflexivity. Qed.

Example min_nan : Num.min S754_nan (Num.of_Z 1) = S754_nan.
Proof. reflexivity. Qed.

Example calculateConfidence_zero : calculateConfidence 0 0 0 = Num.of_Z 0.
Proof. reflexivity. Qed.

(** ** The unit tests of the engine, on the model *)

Definition answerAllFirst : list Call :=
  [AnswerQuestion "q1" "q1a1" 1; AnswerQuestion "q2" "q2a1" 2;
   AnswerQuestion "q3" "q3a1" 3; AnswerQuestion "q4" "q4a1" 4;
   AnswerQuestion "q5" "q5a1" 5; AnswerQuestion "q6" "q6a1" 6;
   AnswerQuestion "q7" "q7a1" 7; AnswerQuestion "q8" "q8a1" 8;
   AnswerQuestion "q9" "q9a1" 9; AnswerQuestion "q10" "q10a1" 10].

Definition answerAllSecond : list Call :=
  [AnswerQuestion "q1" "q1a2" 1; AnswerQuestion "q2" "q2a2" 2;
   AnswerQuestion "q3" "q3a2" 3; AnswerQuestion "q4" "q4a2" 4;
   AnswerQuestion "q5" "q5a2" 5; AnswerQuestion "q6" "q6a2" 6;
   AnswerQuestion "q7" "q7a2" 7; AnswerQuestion "q8" "q8a2" 8;
   AnswerQuestion "q9" "q9a2" 9; AnswerQuestion "q10" "q10a2" 10].

Definition returnedId (r : QuizError + option Question) : option string :=
  match r with
  | inr (Some q) => Some (q_id q)
  | _ => None
  end.

Example test_first_question :
  returnedId (getNextQuestion (newQuizEngine SAMPLE_QUESTIONS)).1 = Some "q1".
Proof. vm_compute. reflexivity. Qed.

Example test_next_unanswered :
  returnedId (getNextQuestion
                (run SAMPLE_QUESTIONS [AnswerQuestion "q1" "q1a1" 1])).1
  = Some "q2".
Proof. vm_compute. reflexivity. Qed.

Example test_record_answer :
  let this := run SAMPLE_QUESTIONS [AnswerQuestion "q1" "q1a1" 1] in
  getResponseCount this = 1 /\ currentScoreTF (session this) = 2.
Proof. vm_compute. split; reflexivity. Qed.

Example test_invalid_calls :
  (answerQuestion "invalid" "q1a1" 1 (newQuizEngine SAMPLE_QUESTIONS)).1
  = inl (QuestionNotFound "invalid")
  /\ (answerQuestion "q1" "invalid" 1 (newQuizEngine SAMPLE_QUESTIONS)).1
     = inl (AnswerNotFound "invalid" "q1")
  /\ (answerQuestion "q1" "q1a1" 11 (run SAMPLE_QUESTIONS answerAllFirst)).1
     = inl QuizAlreadyComplete.
Proof. vm_compute. repeat split; reflexivity. Qed.

Example test_all_first :
  let this := run SAMPLE_QUESTIONS answerAllFirst in
  getIsComplete this = true /\ getArchetype this = Some TJ
  /\ getProgress this = Num.of_Z 100
  /\ (getNextQuestion this).1 = inr None.
Proof. vm_compute. repeat split; reflexivity. Qed.

Example test_all_second :
  getArchetype (run SAMPLE_QUESTIONS answerAllSecond) = Some FP.
Proof. vm_compute. reflexivity. Qed.

Example test_five_answers :
  let this := run SAMPLE_QUESTIONS (take 5 answerAllFirst) in
  getProgress this = Num.of_Z 50 /\ shouldTerminateEarly this = false
  /\ getConfidence this = Num.of_Z 50 /\ getIsComplete this = false.
Proof. vm_compute. repeat split; reflexivity. Qed.

Example test_reset :
  call Reset (run SAMPLE_QUESTIONS answerAllFirst)
  = newQuizEngine SAMPLE_QUESTIONS.
Proof. vm_compute. reflexivity. Qed.

(** ** The classifier *)

(** C2: [determineArchetype] returns [Neutral] exactly when both totals are
    below 2 in absolute value; otherwise it returns the quadrant given by the
    sign of each total, a total of 0 counting as positive; being a function,
    it gives equal totals the same label. *)
Theorem determineArchetype_spec (totalA totalB : Z) :
  (determineArchetype totalA totalB = Neutral
     <-> Z.abs totalA < 2 /\ Z.abs totalB < 2)
  /\ (~ (Z.abs totalA < 2 /\ Z.abs totalB < 2) ->
      determineArchetype totalA totalB =
        match 0 <=? totalA, 0 <=? totalB with
        | true, true => TJ
        | true, false => TP
        | false, true => FJ
        | false, false => FP
        end)
  /\ (forall totalA' totalB',
        totalA' = totalA -> totalB' = totalB ->
        determineArchetype totalA' totalB' = determineArchetype totalA totalB).
Proof.
  split; [ | split; [ | intros ? ? -> ->; reflexivity ] ];
    unfold determineArchetype; cbv zeta;
    destruct (Z.ltb_spec (Z.abs totalA) 2), (Z.ltb_spec (Z.abs totalB) 2);
    destruct (Z.leb_spec 0 totalA), (Z.leb_spec 0 totalB); simpl;
    try (split; [ discriminate | lia ]); try (split; [ lia | reflexivity ]);
    try (intros; reflexivity); try (intros []; split; assumption).
Qed.

(** ** Rounding in binary64 *)

Module Rounding.

Import Num.
















(** *** Values *)















(** *** The shape of results *)














(** *** [Math.min (x, 1)] *)


(** *** Integers as numbers *)













(** *** Products and sums *)





(** *** [Math.round] *)





End Rounding.

(** ** The range of the confidence *)

Section Confidence.

Import Num Rounding.












Example calculateConfidence_overflow :
  calculateConfidence (2 ^ 1023) (2 ^ 1023) (2 ^ 1023) = S754_nan
  /\ Num.add (Num.abs (Num.of_Z (2 ^ 1023))) (Num.abs (Num.of_Z (2 ^ 1023)))
     = S754_infinity false
  /\ Num.mul (Num.of_Z (2 ^ 1023)) (Num.of_Z 2) = S754_infinity false
  /\ Num.of_Z (2 ^ 1023) = S754_finite false 4503599627370496 971.
Proof. repeat split; vm_compute; reflexivity. Qed.


End Confidence.

(** ** The methods, step by step *)

(** The session once [answerQuestion] has pushed the response and updated
    the scores and the confidence. *)
Definition recorded (answer : Answer) (response : QuizResponse)
    (s : QuizSession) : QuizSession :=
  {| responses := responses s ++ [response];
     currentScoreTF := currentScoreTF s + scoreTF answer;
     currentScoreJP := currentScoreJP s + scoreJP answer;
     isComplete := isComplete s;
     archetype := archetype s;
     confidence :=
       calculateConfidence (currentScoreTF s + scoreTF answer)
                           (currentScoreJP s + scoreJP answer)
                           (len (responses s ++ [response])) |}.

(** The session once [completeQuiz] has run. *)
Definition completed (lookup : gmap string Answer) (s : QuizSession)
    : QuizSession :=
  {| responses := responses s;
     currentScoreTF := currentScoreTF s;
     currentScoreJP := currentScoreJP s;
     isComplete := true;
     archetype := Some (r_archetype (calculateArchetype (responses s) lookup));
     confidence := r_confidence (calculateArchetype (responses s) lookup) |}.

Definition findQuestion (this : QuizEngine) (questionId : string)
    : option Question :=
  find (fun q => bool_decide (q_id q = questionId)) (questions this).

Definition findAnswer (question : Question) (answerId : string)
    : option Answer :=
  find (fun a => bool_decide (a_id a = answerId)) (answers question).

Ltac unfold_methods :=
  unfold answerQuestion, getNextQuestion, completeQuiz, reset, modify_session,
    set_session, get, throw, mbind, M_bind, mret, M_ret.

Lemma completeQuiz_eq this :
  completeQuiz this
  = (inr tt, with_session (completed (answerLookup this) (session this)) this).
Proof. reflexivity. Qed.

Lemma answerQuestion_eq this questionId answerId now :
  answerQuestion questionId answerId now this =
    if isComplete (session this) then (inl QuizAlreadyComplete, this)
    else
      match findQuestion this questionId with
      | None => (inl (QuestionNotFound questionId), this)
      | Some question =>
          match findAnswer question answerId with
          | None => (inl (AnswerNotFound answerId questionId), this)
          | Some answer =>
              let response :=
                {| questionId := questionId; answerId := answerId;
                   timestamp := now |} in
              let this1 :=
                with_session (recorded answer response (session this)) this in
              (inr tt,
               if (MAXIMUM_QUESTIONS <=? len (responses (session this1)))
                  || shouldTerminateEarly this1
               then with_session
                      (completed (answerLookup this) (session this1)) this
               else this1)
          end
      end.
Proof.
  unfold findQuestion, findAnswer, answerQuestion.
  unfold modify_session, set_session, get, throw, mbind, M_bind. simpl.
  destruct (isComplete (session this)); [ reflexivity | ].
  destruct (find _ (questions this)) as [question|]; [ | reflexivity ].
  destruct (find _ (answers question)) as [answer|]; [ | reflexivity ].
  cbv zeta.
  lazymatch goal with
  | |- context [if ?c' then completeQuiz else _] =>
      lazymatch goal with
      | |- _ = (_, if ?c then _ else _) => change c' with c; destruct c
      end
  end; reflexivity.
Qed.

Lemma getNextQuestion_eq this :
  getNextQuestion this =
    if isComplete (session this) then (inr None, this)
    else if shouldTerminateEarly this
         then (inr None,
               with_session (completed (answerLookup this) (session this)) this)
         else (inr (nextUnanswered (questions this) (answeredIds this)), this).
Proof.
  unfold_methods. simpl.
  destruct (isComplete (session this)); [ reflexivity | ].
  destruct (shouldTerminateEarly this); reflexivity.
Qed.

Lemma reset_eq this : reset this = (inr tt, with_session initializeSession this).
Proof. reflexivity. Qed.

Lemma find_none_iff {A : Type} (f : A -> bool) (l : list A) :
  find f l = None <-> forall x, x ∈ l -> f x = false.
Proof.
  rewrite <- Forall_forall. induction l as [|a l IH]; simpl.
  - split; [ constructor | reflexivity ].
  - destruct (f a) eqn:Hfa.
    + split; [ discriminate | ]. intros H. inversion H; congruence.
    + rewrite IH. split; [ intros; constructor; assumption | ].
      intros H. inversion H; assumption.
Qed.

Lemma find_some_elem {A : Type} (f : A -> bool) (l : list A) (x : A) :
  find f l = Some x -> x ∈ l /\ f x = true.
Proof.
  induction l as [|a l IH]; simpl; [ discriminate | ].
  destruct (f a) eqn:Hfa.
  - intros [= <-]. split; [ constructor | assumption ].
  - intros H. destruct (IH H). split; [ constructor | ]; assumption.
Qed.

(** ** Rejected calls *)

(** C4: [answerQuestion] throws the "already complete" error exactly when
    the session is complete; the "question not found" error exactly when the
    session is not complete and no question of the bank has the id; the
    "answer not found" error exactly when the session is not complete, the
    bank has the question and none of its answers has the id; and a call
    that throws leaves the engine as it was. *)
Theorem answerQuestion_errors (this : QuizEngine) (questionId answerId : string)
    (now : Z) :
  let r := answerQuestion questionId answerId now this in
  (r.1 = inl QuizAlreadyComplete <-> isComplete (session this) = true)
  /\ ((exists id, r.1 = inl (QuestionNotFound id))
      <-> isComplete (session this) = false
          /\ forall q, q ∈ questions this -> q_id q <> questionId)
  /\ ((exists id qid, r.1 = inl (AnswerNotFound id qid))
      <-> isComplete (session this) = false
          /\ exists question,
               findQuestion this questionId = Some question
               /\ forall a, a ∈ answers question -> a_id a <> answerId)
  /\ (forall e, r.1 = inl e -> r.2 = this).
Proof.
  intros r. subst r. rewrite answerQuestion_eq.
  destruct (isComplete (session this)) eqn:Hc; simpl; [ naive_solver | ].
  destruct (findQuestion this questionId) as [question|] eqn:Hq; simpl.
  2:{ assert (Hno : forall q, q ∈ questions this -> q_id q <> questionId).
      { intros q Hin. apply find_none_iff with (x := q) in Hq; [ | done ].
        by apply bool_decide_eq_false in Hq. }
      naive_solver. }
  assert (Hyes : ~ forall q, q ∈ questions this -> q_id q <> questionId).
  { intros H. apply find_some_elem in Hq as [Hin Hid].
    apply bool_decide_eq_true in Hid. by apply (H _ Hin). }
  destruct (findAnswer question answerId) as [answer|] eqn:Ha; simpl.
  2:{ assert (Hno : forall a, a ∈ answers question -> a_id a <> answerId).
      { intros a Hin. apply find_none_iff with (x := a) in Ha; [ | done ].
        by apply bool_decide_eq_false in Ha. }
      naive_solver. }
  assert (Hyes' : ~ forall a, a ∈ answers question -> a_id a <> answerId).
  { intros H. apply find_some_elem in Ha as [Hin Hid].
    apply bool_decide_eq_true in Hid. by apply (H _ Hin). }
  naive_solver.
Qed.

(** ** The invariant of the engine *)

(** Whether the early-termination test holds on the running totals: what
    [shouldTerminateEarly] computes right after a response is recorded. *)
Definition earlyOnTotals (this : QuizEngine) : bool :=
  let s := session this in
  (MINIMUM_QUESTIONS <=? len (responses s))
  && Num.geb (calculateConfidence (currentScoreTF s) (currentScoreJP s)
                                  (len (responses s)))
             (Num.of_Z CONFIDENCE_THRESHOLD).

Record invariant (qs : list Question) (this : QuizEngine) : Prop := {
  inv_questions : questions this = qs;
  inv_lookup : answerLookup this = buildAnswerLookup qs;
  inv_max : len (responses (session this)) <= MAXIMUM_QUESTIONS;
  inv_open :
    isComplete (session this) = false ->
    len (responses (session this)) < MAXIMUM_QUESTIONS
    /\ shouldTerminateEarly this = false
    /\ archetype (session this) = None
    /\ confidence (session this)
       = calculateConfidence (currentScoreTF (session this))
           (currentScoreJP (session this)) (len (responses (session this)));
  inv_closed :
    isComplete (session this) = true ->
    archetype (session this)
    = Some (r_archetype (calculateArchetype (responses (session this))
                                            (answerLookup this)))
    /\ confidence (session this)
       = r_confidence (calculateArchetype (responses (session this))
                                          (answerLookup this))
    /\ (len (responses (session this)) = MAXIMUM_QUESTIONS
        \/ earlyOnTotals this = true);
}.

Lemma len_snoc {A : Type} (l : list A) (x : A) : len (l ++ [x]) = len l + 1.
Proof. unfold len. rewrite length_app. simpl. lia. Qed.

Lemma len_nonneg {A : Type} (l : list A) : 0 <= len l.
Proof. unfold len. lia. Qed.

Lemma invariant_new qs : invariant qs (newQuizEngine qs).
Proof. split; simpl; done. Qed.

Lemma invariant_reset qs this :
  invariant qs this -> invariant qs (with_session initializeSession this).
Proof. intros [? ? ? ? ?]. split; simpl; done. Qed.

Ltac clia :=
  unfold MAXIMUM_QUESTIONS, MINIMUM_QUESTIONS, CONFIDENCE_THRESHOLD in *; lia.

Lemma invariant_answerQuestion qs this questionId answerId now :
  invariant qs this ->
  invariant qs (answerQuestion questionId answerId now this).2.
Proof.
  intros Hinv. rewrite answerQuestion_eq.
  destruct (isComplete (session this)) eqn:Hc; [ done | ].
  destruct (findQuestion this questionId) as [question|]; [ | done ].
  destruct (findAnswer question answerId) as [answer|]; [ | done ].
  destruct Hinv as [Hq Hl Hmax Hopen _]. destruct (Hopen Hc) as (Hlt & _ & Harch & _).
  cbv zeta. simpl.
  remember {| questionId := questionId; answerId := answerId;
              timestamp := now |} as response eqn:Hresponse.
  pose proof (len_snoc (responses (session this)) response) as Hlen.
  destruct (Z.leb_spec MAXIMUM_QUESTIONS
              (len (responses (session this) ++ [response])))
    as [Hge|Hlt1]; simpl.
  - split; simpl; try done; [ clia | ].
    intros _. repeat split. left. clia.
  - destruct (shouldTerminateEarly (with_session _ this)) eqn:Hearly.
    + split; simpl; try done; [ clia | ].
      intros _. repeat split. right.
      unfold earlyOnTotals. unfold shouldTerminateEarly in Hearly.
      simpl in *.
      destruct (Z.ltb_spec (len (responses (session this) ++ [response]))
                  MINIMUM_QUESTIONS); [ done | ].
      apply andb_true_iff. split; [ by apply Z.leb_le | exact Hearly ].
    + split; simpl; try done; [ clia | congruence ].
Qed.

Lemma invariant_getNextQuestion qs this :
  invariant qs this -> invariant qs (getNextQuestion this).2.
Proof.
  intros Hinv. rewrite getNextQuestion_eq.
  destruct (isComplete (session this)) eqn:Hc; [ done | ].
  destruct (inv_open _ _ Hinv Hc) as (_ & -> & _). done.
Qed.

Lemma invariant_call qs c this : invariant qs this -> invariant qs (call c this).
Proof.
  destruct c; simpl.
  - apply invariant_getNextQuestion.
  - apply invariant_answerQuestion.
  - apply invariant_reset.
Qed.

Lemma invariant_runFrom qs calls this :
  invariant qs this -> invariant qs (runFrom this calls).
Proof.
  revert this. induction calls as [|c calls IH]; intros this Hinv; simpl.
  - exact Hinv.
  - apply IH, invariant_call, Hinv.
Qed.

Lemma invariant_run qs calls : invariant qs (run qs calls).
Proof. apply invariant_runFrom, invariant_new. Qed.

Lemma sumScores_nil lookup : sumScores [] lookup = (0, 0).
Proof. reflexivity. Qed.

Lemma r_archetype_calculateArchetype rs lookup :
  r_archetype (calculateArchetype rs lookup)
  = determineArchetype (sumScores rs lookup).1 (sumScores rs lookup).2.
Proof.
  unfold calculateArchetype.
  destruct (Z.eqb_spec (len rs) 0) as [H0|H0].
  - destruct rs; [ reflexivity | discriminate H0 ].
  - destruct (sumScores rs lookup); reflexivity.
Qed.

(** ** The running totals *)

Definition insertAnswer (lookup : gmap string Answer) (answer : Answer)
    : gmap string Answer :=
  <[a_id answer := answer]> lookup.

Lemma buildAnswerLookup_allAnswers qs :
  buildAnswerLookup qs = foldl insertAnswer ∅ (allAnswers qs).
Proof.
  unfold buildAnswerLookup, allAnswers.
  generalize (∅ : gmap string Answer).
  induction qs as [|q qs IH]; intros m; simpl; [ reflexivity | ].
  rewrite foldl_app. apply IH.
Qed.

Lemma foldl_insertAnswer_other (l : list Answer) (m : gmap string Answer)
    (id : string) :
  id ∉ (a_id <$> l) -> foldl insertAnswer m l !! id = m !! id.
Proof.
  revert m. induction l as [|a l IH]; intros m Hid; simpl; [ reflexivity | ].
  rewrite fmap_cons in Hid. apply not_elem_of_cons in Hid as [Hne Hid].
  rewrite IH by exact Hid. unfold insertAnswer.
  by rewrite lookup_insert_ne.
Qed.

Lemma foldl_insertAnswer_lookup (l : list Answer) (m : gmap string Answer)
    (a : Answer) :
  NoDup (a_id <$> l) -> a ∈ l -> foldl insertAnswer m l !! a_id a = Some a.
Proof.
  revert m. induction l as [|b l IH]; intros m Hnd Hin; [ inversion Hin | ].
  rewrite fmap_cons in Hnd. apply NoDup_cons in Hnd as [Hb Hnd]. simpl.
  apply elem_of_cons in Hin as [->|Hin].
  - rewrite foldl_insertAnswer_other by exact Hb.
    unfold insertAnswer. apply lookup_insert_eq.
  - by apply IH.
Qed.

Lemma elem_of_allAnswers qs question answer :
  question ∈ qs -> answer ∈ answers question -> answer ∈ allAnswers qs.
Proof.
  unfold allAnswers. intros Hq Ha.
  induction qs as [|q qs IH]; [ inversion Hq | ]. simpl.
  apply elem_of_app. apply elem_of_cons in Hq as [<-|Hq]; [ by left | ].
  right. by apply IH.
Qed.

(** With bank-wide unique answer ids, the lookup gives back the answer that
    [answerQuestion] found in the question. *)
Lemma lookup_found_answer qs this questionId answerId question answer :
  uniqueAnswerIds qs -> questions this = qs ->
  findQuestion this questionId = Some question ->
  findAnswer question answerId = Some answer ->
  buildAnswerLookup qs !! answerId = Some answer.
Proof.
  intros Hu Hqs Hq Ha. unfold findQuestion in Hq. rewrite Hqs in Hq.
  apply find_some_elem in Hq as [Hq _].
  apply find_some_elem in Ha as [Ha Hid].
  apply bool_decide_eq_true in Hid. subst answerId.
  rewrite buildAnswerLookup_allAnswers.
  apply foldl_insertAnswer_lookup; [ exact Hu | ].
  by apply (elem_of_allAnswers _ question).
Qed.

Lemma sumScores_snoc rs r lookup :
  sumScores (rs ++ [r]) lookup =
    match lookup !! answerId r with
    | Some answer =>
        ((sumScores rs lookup).1 + scoreTF answer,
         (sumScores rs lookup).2 + scoreJP answer)
    | None => sumScores rs lookup
    end.
Proof. unfold sumScores. by rewrite foldl_app. Qed.

(** The running totals of the session are the totals that
    [calculateArchetype] sums over the responses. *)
Definition totalsAgree (this : QuizEngine) : Prop :=
  sumScores (responses (session this)) (answerLookup this)
  = (currentScoreTF (session this), currentScoreJP (session this)).

Lemma totalsAgree_call qs c this :
  uniqueAnswerIds qs -> invariant qs this ->
  totalsAgree this -> totalsAgree (call c this).
Proof.
  intros Hu Hinv Hagree. destruct c as [|questionId answerId now|]; simpl.
  - rewrite getNextQuestion_eq.
    destruct (isComplete (session this)); [ done | ].
    by destruct (shouldTerminateEarly this).
  - rewrite answerQuestion_eq.
    destruct (isComplete (session this)); [ done | ].
    destruct (findQuestion this questionId) as [question|] eqn:Hq; [ | done ].
    destruct (findAnswer question answerId) as [answer|] eqn:Ha; [ | done ].
    pose proof (lookup_found_answer _ _ _ _ _ _ Hu (inv_questions _ _ Hinv) Hq Ha)
      as Hlookup.
    rewrite <- (inv_lookup _ _ Hinv) in Hlookup.
    assert (Hnew : sumScores
                     (responses (session this) ++
                        [{| questionId := questionId; answerId := answerId;
                            timestamp := now |}]) (answerLookup this)
                   = (currentScoreTF (session this) + scoreTF answer,
                      currentScoreJP (session this) + scoreJP answer)).
    { rewrite sumScores_snoc. simpl. rewrite Hlookup.
      unfold totalsAgree in Hagree. by rewrite Hagree. }
    cbv zeta. simpl. destruct (_ || _); exact Hnew.
  - reflexivity.
Qed.

Lemma totalsAgree_run qs calls : uniqueAnswerIds qs -> totalsAgree (run qs calls).
Proof.
  intros Hu. unfold run.
  assert (Hstart : invariant qs (newQuizEngine qs) /\ totalsAgree (newQuizEngine qs))
    by (split; [ apply invariant_new | reflexivity ]).
  revert Hstart. generalize (newQuizEngine qs).
  induction calls as [|c calls IH]; intros this [Hinv Hagree]; simpl.
  - exact Hagree.
  - apply IH. split; [ by apply invariant_call | by apply (totalsAgree_call qs) ].
Qed.

(** ** Exhaustion *)


(** ** Progress *)

Lemma progress_of_count (n : Z) :
  0 <= n <= 10 ->
  Num.round (Num.mul (Num.div (Num.of_Z n) (Num.of_Z MAXIMUM_QUESTIONS))
                     (Num.of_Z 100))
  = Num.of_Z (n * 100 / MAXIMUM_QUESTIONS).
Proof.
  intros Hn. rewrite <- (Z2Nat.id n) by lia.
  assert (Hk : (Z.to_nat n <= 10)%nat) by lia.
  revert Hk. generalize (Z.to_nat n). intros k Hk.
  do 11 (destruct k as [|k]; [ vm_compute; reflexivity | ]).
  lia.
Qed.

(** C9: in every state an engine reaches, [getProgress] is the percentage
    [responseCount * 100 / MAXIMUM_QUESTIONS] of answered questions, which is
    what the rounding of [(responseCount / MAXIMUM_QUESTIONS) * 100] yields
    there, and it is at most 100. *)
Theorem getProgress_percentage (qs : list Question) (calls : list Call) :
  let this := run qs calls in
  getProgress this
  = Num.of_Z (getResponseCount this * 100 / MAXIMUM_QUESTIONS)
  /\ 0 <= getResponseCount this * 100 / MAXIMUM_QUESTIONS <= 100.
Proof.
  intros this. pose proof (invariant_run qs calls) as Hinv. fold this in Hinv.
  destruct Hinv as [_ _ Hmax _ _].
  pose proof (len_nonneg (responses (session this))) as H0.
  unfold getProgress, getResponseCount. split.
  - apply progress_of_count. unfold MAXIMUM_QUESTIONS in Hmax. lia.
  - unfold MAXIMUM_QUESTIONS in *.
    split; [ apply Z.div_pos; lia | apply Z.div_le_upper_bound; lia ].
Qed.

(** ** Question sequencing *)

Lemma find_some_split {A : Type} (f : A -> bool) (l : list A) (x : A) :
  find f l = Some x ->
  exists pre post,
    l = pre ++ x :: post /\ f x = true /\ forall p, p ∈ pre -> f p = false.
Proof.
  induction l as [|a l IH]; simpl; [ discriminate | ].
  destruct (f a) eqn:Hfa.
  - intros [= <-]. exists [], l. repeat split; [ done | ].
    intros p Hp. inversion Hp.
  - intros H. destruct (IH H) as (pre & post & -> & Hx & Hpre).
    exists (a :: pre), post. repeat split; [ done | ].
    intros p Hp. inversion Hp; subst; [ done | by apply Hpre ].
Qed.

Lemma find_split_some {A : Type} (f : A -> bool) (pre post : list A) (x : A) :
  f x = true -> (forall p, p ∈ pre -> f p = false) ->
  find f (pre ++ x :: post) = Some x.
Proof.
  intros Hx. induction pre as [|a pre IH]; intros Hpre; simpl.
  - by rewrite Hx.
  - rewrite (Hpre a) by constructor. apply IH.
    intros p Hp. apply Hpre. by constructor.
Qed.

(** C7: for every set of answered ids, the question that [getNextQuestion]
    looks up is the first one of the bank, in the bank's order, whose id is
    not in the set, and there is none exactly when every id of the bank is
    in the set; while the session is not complete [getNextQuestion] returns
    just that question for the ids that have a response (none once the
    session is complete), and it changes neither the bank nor the
    session. *)
Theorem getNextQuestion_first_unanswered (qs : list Question)
    (answered : gset string) :
  (forall q,
     nextUnanswered qs answered = Some q
     <-> exists pre post,
           qs = pre ++ q :: post
           /\ (q_id q ∉ answered)
           /\ forall p, p ∈ pre -> q_id p ∈ answered)
  /\ (nextUnanswered qs answered = None
      <-> forall q, q ∈ qs -> q_id q ∈ answered)
  /\ (forall calls,
        let this := run qs calls in
        answeredIds this = answered ->
        getNextQuestion this
        = (inr (if isComplete (session this) then None
                else nextUnanswered qs answered), this))
  /\ (forall this, questions (getNextQuestion this).2 = questions this).
Proof.
  unfold nextUnanswered.
  split; [ intros q; split | split; [ split | split ] ].
  - intros Hfind. apply find_some_split in Hfind as (pre & post & -> & Hq & Hpre).
    exists pre, post. repeat split.
    + apply negb_true_iff, bool_decide_eq_false in Hq. exact Hq.
    + intros p Hp. specialize (Hpre p Hp).
      apply negb_false_iff, bool_decide_eq_true in Hpre. exact Hpre.
  - intros (pre & post & -> & Hq & Hpre). apply find_split_some.
    + by apply negb_true_iff, bool_decide_eq_false.
    + intros p Hp. by apply negb_false_iff, bool_decide_eq_true, Hpre.
  - intros Hnone q Hq. apply find_none_iff with (x := q) in Hnone; [ | done ].
    by apply negb_false_iff, bool_decide_eq_true in Hnone.
  - intros Hall. apply find_none_iff. intros q Hq.
    by apply negb_false_iff, bool_decide_eq_true, Hall.
  - intros calls Hids. pose proof (invariant_run qs calls) as Hinv.
    rewrite getNextQuestion_eq.
    destruct (isComplete (session (run qs calls))) eqn:Hc; [ done | ].
    destruct (inv_open _ _ Hinv Hc) as (_ & -> & _).
    by rewrite (inv_questions _ _ Hinv), Hids.
  - intros this. rewrite getNextQuestion_eq.
    destruct (isComplete (session this)); [ done | ].
    by destruct (shouldTerminateEarly this).
Qed.

(** ** One response per question *)

(** The calls of a host that answers no question twice: every
    [answerQuestion] names a question that has no response yet, as it does
    when the host answers the question that [getNextQuestion] returned. *)
Fixpoint answersOnce (this : QuizEngine) (calls : list Call) : bool :=
  match calls with
  | [] => true
  | c :: calls =>
      match c with
      | AnswerQuestion questionId _ _ =>
          bool_decide (questionId ∉ answeredIds this)
      | _ => true
      end
      && answersOnce (call c this) calls
  end.

Definition responseIds (this : QuizEngine) : list string :=
  questionId <$> responses (session this).

Lemma responseIds_answerQuestion this questionId answerId now :
  responseIds (answerQuestion questionId answerId now this).2 = responseIds this
  \/ responseIds (answerQuestion questionId answerId now this).2
     = responseIds this ++ [questionId].
Proof.
  rewrite answerQuestion_eq.
  destruct (isComplete (session this)); [ by left | ].
  destruct (findQuestion this questionId) as [question|]; [ | by left ].
  destruct (findAnswer question answerId) as [answer|]; [ | by left ].
  right. cbv zeta. simpl.
  destruct (_ || _); unfold responseIds; simpl; by rewrite fmap_app.
Qed.

Lemma responseIds_getNextQuestion this :
  responseIds (getNextQuestion this).2 = responseIds this.
Proof.
  rewrite getNextQuestion_eq.
  destruct (isComplete (session this)); [ done | ].
  by destruct (shouldTerminateEarly this).
Qed.

Lemma answersOnce_NoDup this calls :
  NoDup (responseIds this) -> answersOnce this calls = true ->
  NoDup (responseIds (runFrom this calls)).
Proof.
  revert this. induction calls as [|c calls IH]; intros this Hnd Hcalls; simpl.
  - exact Hnd.
  - simpl in Hcalls. apply andb_true_iff in Hcalls as [Hc Hcalls].
    apply IH; [ | exact Hcalls ].
    destruct c as [|questionId answerId now|]; simpl.
    + by rewrite responseIds_getNextQuestion.
    + apply bool_decide_eq_true in Hc.
      destruct (responseIds_answerQuestion this questionId answerId now)
        as [->| ->]; [ done | ].
      apply NoDup_app. repeat split; [ done | | apply NoDup_singleton ].
      intros x Hx Hx'. apply list_elem_of_singleton in Hx'. subst x.
      apply Hc. unfold answeredIds. apply elem_of_list_to_set. exact Hx.
    + constructor.
Qed.

(** C3, as the code has it: when no [answerQuestion] call names a question
    that already has a response, the responses of every state reached hold
    at most one response per question id. *)
Theorem one_response_per_question (qs : list Question) (calls : list Call) :
  answersOnce (newQuizEngine qs) calls = true ->
  NoDup (questionId <$> responses (session (run qs calls))).
Proof.
  intros Hcalls. apply (answersOnce_NoDup (newQuizEngine qs) calls);
    [ constructor | exact Hcalls ].
Qed.

Lemma one_response_per_question_witness :
  NoDup (questionId <$>
           responses (session (run SAMPLE_QUESTIONS
                                 [GetNextQuestion;
                                  AnswerQuestion "q1" "q1a1" 1000;
                                  GetNextQuestion;
                                  AnswerQuestion "q2" "q2a2" 2000]))).
Proof. apply one_response_per_question. vm_compute. reflexivity. Defined.

(** C3, as the specification states it, fails: [answerQuestion] accepts a
    question that was answered before, and records a second response for
    it. *)
Lemma one_response_per_question_counterexample :
  ~ (forall (qs : list Question) (calls : list Call),
       NoDup (questionId <$> responses (session (run qs calls)))).
Proof.
  intros H.
  specialize (H SAMPLE_QUESTIONS
                [AnswerQuestion "q1" "q1a1" 1000;
                 AnswerQuestion "q1" "q1a2" 2000]).
  vm_compute in H. inversion H as [|? ? Hnotin _]. apply Hnotin. constructor.
Qed.

(** ** The recomputed result *)

(** C10: over a bank whose answer ids are unique, in every complete state
    an engine reaches the result that [completeQuiz] recomputes from the
    responses has the scores that [answerQuestion] accumulated, and the
    committed archetype is the classification of these running totals. *)
Theorem recomputed_result_is_running_totals (qs : list Question)
    (calls : list Call) :
  uniqueAnswerIds qs ->
  let this := run qs calls in
  let result :=
    calculateArchetype (responses (session this)) (answerLookup this) in
  isComplete (session this) = true ->
  r_scoreTF result = currentScoreTF (session this)
  /\ r_scoreJP result = currentScoreJP (session this)
  /\ archetype (session this)
     = Some (determineArchetype (currentScoreTF (session this))
                                (currentScoreJP (session this))).
Proof.
  intros Hu this result Hc.
  pose proof (totalsAgree_run qs calls Hu) as Hagree. fold this in Hagree.
  pose proof (invariant_run qs calls) as Hinv. fold this in Hinv.
  destruct (inv_closed _ _ Hinv Hc) as (Harch & _ & _).
  rewrite Harch, r_archetype_calculateArchetype.
  unfold totalsAgree in Hagree. subst result. unfold calculateArchetype.
  rewrite Hagree. simpl.
  destruct (Z.eqb_spec (len (responses (session this))) 0) as [H0|H0];
    simpl; [ | done ].
  destruct (responses (session this)); [ | discriminate H0 ].
  injection Hagree as <- <-. done.
Qed.

Lemma uniqueAnswerIds_SAMPLE_QUESTIONS : uniqueAnswerIds SAMPLE_QUESTIONS.
Proof. unfold uniqueAnswerIds. apply (bool_decide_unpack _). vm_compute. exact I. Qed.

Lemma recomputed_result_is_running_totals_witness :
  let this := run SAMPLE_QUESTIONS answerAllFirst in
  let result :=
    calculateArchetype (responses (session this)) (answerLookup this) in
  r_scoreTF result = currentScoreTF (session this)
  /\ r_scoreJP result = currentScoreJP (session this)
  /\ archetype (session this)
     = Some (determineArchetype (currentScoreTF (session this))
                                (currentScoreJP (session this))).
Proof.
  apply (recomputed_result_is_running_totals SAMPLE_QUESTIONS answerAllFirst).
  - apply (bool_decide_unpack _). vm_compute. exact I.
  - vm_compute. reflexivity.
Defined.

(** The premise on the answer ids is needed: when a later question reuses
    an answer id, the lookup resolves the id to the later answer, and the
    recomputed result leaves the running totals. *)
Definition DUPLICATE_QUESTIONS : list Question :=
  [ mkQuestion "d1" T_F (mkAnswer "yes" 2 2) (mkAnswer "no" (-2) (-2));
    mkQuestion "d2" J_P (mkAnswer "yes" 2 2) (mkAnswer "no" (-2) (-2));
    mkQuestion "d3" T_F (mkAnswer "yes" 2 2) (mkAnswer "no" (-2) (-2));
    mkQuestion "d4" J_P (mkAnswer "yes" 2 2) (mkAnswer "no" (-2) (-2));
    mkQuestion "d5" T_F (mkAnswer "yes" 2 2) (mkAnswer "no" (-2) (-2));
    mkQuestion "d6" J_P (mkAnswer "yes" 0 0) (mkAnswer "no" 0 0) ].

Example duplicate_answer_ids_diverge :
  let this :=
    run DUPLICATE_QUESTIONS
      [AnswerQuestion "d1" "yes" 1; AnswerQuestion "d2" "yes" 2;
       AnswerQuestion "d3" "yes" 3; AnswerQuestion "d4" "yes" 4;
       AnswerQuestion "d5" "yes" 5] in
  currentScoreTF (session this) = 10
  /\ currentScoreJP (session this) = 10
  /\ isComplete (session this) = true
  /\ archetype (session this) = Some Neutral
  /\ confidence (session this) = Num.of_Z 15.
Proof. vm_compute. repeat split; reflexivity. Qed.

(** ** Replay after reset *)

(** The answers of a host, in order; the call number [i] reads the time
    [clock i]. *)
Definition answerCalls (pairs : list (string * string)) (clock : nat -> Z)
    : list Call :=
  imap (fun i p => AnswerQuestion p.1 p.2 (clock i)) pairs.

Definition responseKey (r : QuizResponse) : string * string :=
  (questionId r, answerId r).

(** Two engines that differ in the timestamps of their responses only. *)
Record similar (a b : QuizEngine) : Prop := {
  sim_questions : questions a = questions b;
  sim_lookup : answerLookup a = answerLookup b;
  sim_keys :
    responseKey <$> responses (session a) = responseKey <$> responses (session b);
  sim_scoreTF : currentScoreTF (session a) = currentScoreTF (session b);
  sim_scoreJP : currentScoreJP (session a) = currentScoreJP (session b);
  sim_isComplete : isComplete (session a) = isComplete (session b);
  sim_archetype : archetype (session a) = archetype (session b);
  sim_confidence : confidence (session a) = confidence (session b);
}.

Lemma keys_len rs rs' :
  responseKey <$> rs = responseKey <$> rs' -> len rs = len rs'.
Proof.
  intros H. apply (f_equal length) in H. rewrite !length_fmap in H.
  unfold len. by rewrite H.
Qed.

Lemma sumScores_keys rs rs' lookup :
  responseKey <$> rs = responseKey <$> rs' ->
  sumScores rs lookup = sumScores rs' lookup.
Proof.
  unfold sumScores. generalize (0, 0).
  revert rs'. induction rs as [|r rs IH]; intros [|r' rs'] acc H;
    try discriminate H; [ reflexivity | ].
  rewrite !fmap_cons in H. unfold responseKey at 1 3 in H.
  inversion H as [[Hqid Hid Hrs]]. simpl. rewrite Hid.
  by apply IH.
Qed.

Lemma calculateArchetype_keys rs rs' lookup :
  responseKey <$> rs = responseKey <$> rs' ->
  calculateArchetype rs lookup = calculateArchetype rs' lookup.
Proof.
  intros H. unfold calculateArchetype.
  by rewrite (keys_len _ _ H), (sumScores_keys _ _ lookup H).
Qed.

Lemma similar_shouldTerminateEarly a b :
  similar a b -> shouldTerminateEarly a = shouldTerminateEarly b.
Proof.
  intros H. unfold shouldTerminateEarly.
  by rewrite (keys_len _ _ (sim_keys _ _ H)), (sim_confidence _ _ H).
Qed.

Lemma similar_answerQuestion a b questionId answerId now now' :
  similar a b ->
  similar (answerQuestion questionId answerId now a).2
          (answerQuestion questionId answerId now' b).2.
Proof.
  intros H. rewrite !answerQuestion_eq.
  rewrite <- (sim_isComplete _ _ H).
  destruct (isComplete (session a)) eqn:Hc; [ exact H | ].
  unfold findQuestion. rewrite <- (sim_questions _ _ H).
  destruct (find _ (questions a)) as [question|]; [ | exact H ].
  destruct (findAnswer question answerId) as [answer|]; [ | exact H ].
  cbv zeta.
  set (r := {| questionId := questionId; answerId := answerId; timestamp := now |}).
  set (r' := {| questionId := questionId; answerId := answerId; timestamp := now' |}).
  assert (Hkeys : responseKey <$> responses (session a) ++ [r]
                  = responseKey <$> responses (session b) ++ [r']).
  { rewrite !fmap_app. by rewrite (sim_keys _ _ H). }
  assert (Hrec : similar (with_session (recorded answer r (session a)) a)
                         (with_session (recorded answer r' (session b)) b)).
  { destruct H. split; simpl; try done; try congruence.
    by rewrite (keys_len _ _ Hkeys), sim_scoreTF0, sim_scoreJP0. }
  rewrite <- (similar_shouldTerminateEarly _ _ Hrec).
  replace (len (responses (session (with_session (recorded answer r' (session b)) b))))
    with (len (responses (session (with_session (recorded answer r (session a)) a))))
    by (simpl; apply (keys_len _ _ Hkeys)).
  destruct (_ || _); [ | exact Hrec ].
  destruct H. split; simpl; try done; try congruence.
  - by rewrite sim_lookup0, (calculateArchetype_keys _ _ _ Hkeys).
  - by rewrite sim_lookup0, (calculateArchetype_keys _ _ _ Hkeys).
Qed.

Lemma similar_answerCalls pairs clock clock' a b :
  similar a b ->
  similar (runFrom a (answerCalls pairs clock))
          (runFrom b (answerCalls pairs clock')).
Proof.
  unfold answerCalls.
  revert clock clock' a b.
  induction pairs as [|p pairs IH]; intros clock clock' a b H; simpl.
  - exact H.
  - apply IH. by apply similar_answerQuestion.
Qed.

Lemma reset_is_new qs this :
  invariant qs this -> call Reset this = newQuizEngine qs.
Proof.
  intros H. simpl. unfold with_session, newQuizEngine.
  by rewrite (inv_questions _ _ H), (inv_lookup _ _ H).
Qed.

(** C6: the answers of a run, given again after [reset ()], leave the engine
    with the same scores, confidence and archetype as the first run did,
    whatever the clock reads in the two runs, and with the same (question,
    answer) pairs recorded. *)
Theorem replay_after_reset (qs : list Question) (pairs : list (string * string))
    (clock clock' : nat -> Z) :
  let first := run qs (answerCalls pairs clock) in
  let second := runFrom (call Reset first) (answerCalls pairs clock') in
  currentScoreTF (session second) = currentScoreTF (session first)
  /\ currentScoreJP (session second) = currentScoreJP (session first)
  /\ confidence (session second) = confidence (session first)
  /\ archetype (session second) = archetype (session first)
  /\ isComplete (session second) = isComplete (session first)
  /\ responseKey <$> responses (session second)
     = responseKey <$> responses (session first).
Proof.
  intros first second. subst second.
  rewrite (reset_is_new qs) by apply invariant_run.
  assert (Hsim : similar (runFrom (newQuizEngine qs) (answerCalls pairs clock'))
                         first).
  { apply similar_answerCalls. by split. }
  destruct Hsim. by repeat split.
Qed.

(** ** Early termination *)





(** A bank of five questions with an answer of weights 2 and 2 each. *)
Definition STRONG_QUESTIONS : list Question :=
  [ mkQuestion "s1" T_F (mkAnswer "s1a1" 2 2) (mkAnswer "s1a2" (-2) (-2));
    mkQuestion "s2" J_P (mkAnswer "s2a1" 2 2) (mkAnswer "s2a2" (-2) (-2));
    mkQuestion "s3" T_F (mkAnswer "s3a1" 2 2) (mkAnswer "s3a2" (-2) (-2));
    mkQuestion "s4" J_P (mkAnswer "s4a1" 2 2) (mkAnswer "s4a2" (-2) (-2));
    mkQuestion "s5" T_F (mkAnswer "s5a1" 2 2) (mkAnswer "s5a2" (-2) (-2)) ].

Definition answerStrong : list Call :=
  [AnswerQuestion "s1" "s1a1" 1; AnswerQuestion "s2" "s2a1" 2;
   AnswerQuestion "s3" "s3a1" 3; AnswerQuestion "s4" "s4a1" 4;
   AnswerQuestion "s5" "s5a1" 5].


(** * Further properties of the code *)

(** ** The calculator *)

(** X1: [hasClearArchetype] holds exactly when [determineArchetype] commits
    to a quadrant, and so exactly when the result of [calculateArchetype]
    over any responses is not [Neutral]. *)
Theorem hasClearArchetype_iff_not_neutral (scoreTF scoreJP : Z)
    (rs : list QuizResponse) (lookup : gmap string Answer) :
  (hasClearArchetype scoreTF scoreJP = true
   <-> determineArchetype scoreTF scoreJP <> Neutral)
  /\ (let result := calculateArchetype rs lookup in
      hasClearArchetype (r_scoreTF result) (r_scoreJP result) = true
      <-> r_archetype result <> Neutral).
Proof.
  assert (Hiff : forall tf jp,
             hasClearArchetype tf jp = true <-> determineArchetype tf jp <> Neutral).
  { intros tf jp. unfold hasClearArchetype, determineArchetype. cbv zeta.
    destruct (Z.ltb_spec (Z.abs tf) 2), (Z.ltb_spec (Z.abs jp) 2);
      destruct (Z.leb_spec 2 (Z.abs tf)), (Z.leb_spec 2 (Z.abs jp));
      try lia; simpl; try (split; [ discriminate | congruence ]);
      destruct (0 <=? tf), (0 <=? jp); simpl; split; congruence. }
  split; [ apply Hiff | ].
  cbv zeta. unfold calculateArchetype.
  destruct (len rs =? 0); [ simpl; split; [ discriminate | congruence ] | ].
  destruct (sumScores rs lookup) as [tf jp]. simpl. apply Hiff.
Qed.

(** The step of the loop of [calculateArchetype]. *)
Definition addScores (lookup : gmap string Answer) (totals : Z * Z)
    (response : QuizResponse) : Z * Z :=
  match lookup !! answerId response with
  | Some answer => (totals.1 + scoreTF answer, totals.2 + scoreJP answer)
  | None => totals
  end.

Lemma sumScores_foldl rs lookup :
  sumScores rs lookup = foldl (addScores lookup) (0, 0) rs.
Proof. reflexivity. Qed.






(** The responses whose answer the lookup knows. *)
Definition knownResponses (rs : list QuizResponse)
    (lookup : gmap string Answer) : list QuizResponse :=
  filter (fun r => is_Some (lookup !! answerId r)) rs.

Lemma foldl_addScores_known lookup rs totals :
  foldl (addScores lookup) totals (knownResponses rs lookup)
  = foldl (addScores lookup) totals rs.
Proof.
  unfold knownResponses. revert totals.
  induction rs as [|r rs IH]; intros totals; [ reflexivity | ].
  rewrite filter_cons. destruct (decide (is_Some (lookup !! answerId r))) as [Hk|Hk].
  - simpl. apply IH.
  - simpl. rewrite IH. f_equal. unfold addScores.
    destruct (lookup !! answerId r); [ | reflexivity ].
    exfalso. apply Hk. by eexists.
Qed.

(** X3: a response whose answer id the lookup does not know adds nothing to
    the scores: scores and archetype are those of the known responses
    alone, while the confidence still counts every response. *)
Theorem calculateArchetype_unknown_answers (rs : list QuizResponse)
    (lookup : gmap string Answer) :
  let result := calculateArchetype rs lookup in
  let known := calculateArchetype (knownResponses rs lookup) lookup in
  r_scoreTF result = r_scoreTF known
  /\ r_scoreJP result = r_scoreJP known
  /\ r_archetype result = r_archetype known
  /\ r_confidence result
     = calculateConfidence (r_scoreTF known) (r_scoreJP known) (len rs).
Proof.
  cbv zeta.
  assert (Hsum : sumScores (knownResponses rs lookup) lookup = sumScores rs lookup)
    by (rewrite !sumScores_foldl; apply foldl_addScores_known).
  assert (Hscores : forall l,
             (r_scoreTF (calculateArchetype l lookup),
              r_scoreJP (calculateArchetype l lookup)) = sumScores l lookup).
  { intros l. unfold calculateArchetype.
    destruct (Z.eqb_spec (len l) 0) as [H0|H0].
    - destruct l; [ reflexivity | discriminate H0 ].
    - by destruct (sumScores l lookup). }
  pose proof (Hscores rs) as Hrs.
  pose proof (Hscores (knownResponses rs lookup)) as Hknown.
  rewrite Hsum, <- Hrs in Hknown. injection Hknown as -> ->.
  rewrite !r_archetype_calculateArchetype, Hsum.
  repeat split.
  unfold calculateArchetype.
  destruct (Z.eqb_spec (len rs) 0) as [H0|H0].
  - rewrite H0. destruct rs; [ reflexivity | discriminate H0 ].
  - by destruct (sumScores rs lookup).
Qed.

(** ** The confidence depends on the magnitudes only *)

Section Magnitudes.

Import Num Rounding.

Lemma abs_binary_round_aux (s : bool) (m e : Z) (l : location) :
  abs (binary_round_aux prec emax s m e l)
  = abs (binary_round_aux prec emax false m e l).
Proof.
  unfold binary_round_aux.
  destruct (shr_fexp prec emax m e l) as [r1 e1].
  destruct (shr_fexp prec emax _ e1 loc_Exact) as [r2 e2].
  destruct (shr_m r2); [ reflexivity | | reflexivity ].
  by destruct (e2 <=? emax - prec).
Qed.

Lemma abs_of_Z_abs (z : Z) : abs (of_Z (Z.abs z)) = abs (of_Z z).
Proof.
  destruct z as [|p|p]; [ reflexivity | reflexivity | ].
  change (Z.abs (Z.neg p)) with (Z.pos p).
  unfold of_Z, binary_normalize, binary_round.
  destruct (shl_align p 0 _) as [mz ez].
  symmetry. apply abs_binary_round_aux.
Qed.

Lemma add_commutes (x y : number) : add x y = add y x.
Proof.
  destruct x as [sx|sx| |sx mx ex], y as [sy|sy| |sy my ey];
    try reflexivity; try (by destruct sx, sy).
  unfold add, SFadd. by rewrite Z.min_comm, Z.add_comm.
Qed.

End Magnitudes.

Lemma calculateConfidence_abs (scoreTF scoreJP responseCount : Z) :
  calculateConfidence scoreTF scoreJP responseCount
  = calculateConfidence (Z.abs scoreTF) (Z.abs scoreJP) responseCount.
Proof.
  unfold calculateConfidence.
  destruct (responseCount =? 0); [ reflexivity | ]. cbv zeta.
  by rewrite !abs_of_Z_abs.
Qed.

(** X4: [calculateConfidence] depends on the magnitudes of the two totals
    only, and not on which of the two dimensions a total belongs to. *)
Theorem calculateConfidence_magnitudes (scoreTF scoreJP responseCount : Z) :
  calculateConfidence scoreTF scoreJP responseCount
  = calculateConfidence (Z.abs scoreTF) (Z.abs scoreJP) responseCount
  /\ calculateConfidence scoreTF scoreJP responseCount
     = calculateConfidence scoreJP scoreTF responseCount.
Proof.
  split; [ apply calculateConfidence_abs | ].
  unfold calculateConfidence.
  destruct (responseCount =? 0); [ reflexivity | ]. cbv zeta.
  by rewrite (add_commutes (Num.abs (Num.of_Z scoreTF))).
Qed.

(** ** What early termination takes *)

(** Whether the totals [a] and [b] over [n] responses either reach three
    points per response or stay below the confidence threshold. *)
Definition decisiveOrUnsure (n a b : nat) : bool :=
  (3 * n <=? a + b)%nat
  || negb (Num.geb (calculateConfidence (Z.of_nat a) (Z.of_nat b) (Z.of_nat n))
                   (Num.of_Z CONFIDENCE_THRESHOLD)).

Lemma decisiveOrUnsure_table :
  forallb (fun n =>
             forallb (fun a => forallb (decisiveOrUnsure n a) (seq 0 27))
                     (seq 0 27))
          (seq 5 5) = true.
Proof. vm_compute. reflexivity. Qed.

(** Below ten responses the confidence reaches the threshold only when the
    magnitudes of the totals add up to three points per response. *)
Lemma threshold_needs_three_per_response (scoreTF scoreJP responseCount : Z) :
  MINIMUM_QUESTIONS <= responseCount < MAXIMUM_QUESTIONS ->
  Num.geb (calculateConfidence scoreTF scoreJP responseCount)
          (Num.of_Z CONFIDENCE_THRESHOLD) = true ->
  3 * responseCount <= Z.abs scoreTF + Z.abs scoreJP.
Proof.
  unfold MINIMUM_QUESTIONS, MAXIMUM_QUESTIONS. intros Hn Hgeb.
  destruct (Z.le_gt_cases (3 * responseCount) (Z.abs scoreTF + Z.abs scoreJP))
    as [Hle|Hgt]; [ exact Hle | exfalso ].
  rewrite calculateConfidence_abs in Hgeb.
  pose proof decisiveOrUnsure_table as Htable.
  rewrite forallb_forall in Htable.
  specialize (Htable (Z.to_nat responseCount)).
  rewrite forallb_forall in Htable.
  specialize (Htable ltac:(apply in_seq; lia) (Z.to_nat (Z.abs scoreTF))).
  rewrite forallb_forall in Htable.
  specialize (Htable ltac:(apply in_seq; lia) (Z.to_nat (Z.abs scoreJP))
                     ltac:(apply in_seq; lia)).
  unfold decisiveOrUnsure in Htable. rewrite !Z2Nat.id in Htable by lia.
  rewrite Hgeb in Htable. simpl in Htable. rewrite orb_false_r in Htable.
  apply Nat.leb_le in Htable. lia.
Qed.

(** X5: a session that an engine has completed with fewer than
    [MAXIMUM_QUESTIONS] responses has at least [MINIMUM_QUESTIONS] of them
    and running totals whose magnitudes add up to at least three points per
    response, so [hasClearArchetype] holds of them and their classification
    is not [Neutral]; over a bank with unique answer ids that classification
    is the archetype of the session, and the confidence of the session
    reaches [CONFIDENCE_THRESHOLD]. *)
Theorem early_completion_is_decisive (qs : list Question) (calls : list Call) :
  let this := run qs calls in
  let scoreTF := currentScoreTF (session this) in
  let scoreJP := currentScoreJP (session this) in
  getIsComplete this = true ->
  getResponseCount this < MAXIMUM_QUESTIONS ->
  MINIMUM_QUESTIONS <= getResponseCount this
  /\ 3 * getResponseCount this <= Z.abs scoreTF + Z.abs scoreJP
  /\ hasClearArchetype scoreTF scoreJP = true
  /\ determineArchetype scoreTF scoreJP <> Neutral
  /\ (uniqueAnswerIds qs ->
      getArchetype this = Some (determineArchetype scoreTF scoreJP)
      /\ getArchetype this <> Some Neutral
      /\ Num.geb (getConfidence this) (Num.of_Z CONFIDENCE_THRESHOLD) = true).
Proof.
  intros this scoreTF scoreJP Hc Hlt.
  unfold getIsComplete, getResponseCount, getArchetype, getConfidence in *.
  pose proof (invariant_run qs calls) as Hinv. fold this in Hinv.
  destruct (inv_closed _ _ Hinv Hc) as (Harch & Hconf & [Hmax|Hearly]); [ lia | ].
  unfold earlyOnTotals in Hearly. cbv zeta in Hearly.
  apply andb_true_iff in Hearly as [Hmin Hgeb]. apply Z.leb_le in Hmin.
  fold scoreTF scoreJP in Hgeb.
  pose proof (threshold_needs_three_per_response _ _ _ (conj Hmin Hlt) Hgeb)
    as Hthree.
  assert (Hclear : hasClearArchetype scoreTF scoreJP = true).
  { unfold hasClearArchetype. cbv zeta. apply orb_true_iff.
    unfold MINIMUM_QUESTIONS in Hmin.
    destruct (Z.leb_spec 2 (Z.abs scoreTF)); [ by left | right ].
    apply Z.leb_le. lia. }
  assert (Hdet : determineArchetype scoreTF scoreJP <> Neutral).
  { unfold hasClearArchetype in Hclear. cbv zeta in Hclear.
    apply orb_true_iff in Hclear.
    unfold determineArchetype. cbv zeta.
    replace ((Z.abs scoreTF <? 2) && (Z.abs scoreJP <? 2)) with false.
    - by destruct (0 <=? scoreTF), (0 <=? scoreJP).
    - symmetry. apply andb_false_iff.
      destruct Hclear as [H|H]; apply Z.leb_le in H; [ left | right ];
        apply Z.ltb_ge; exact H. }
  repeat split; try assumption.
  - rewrite Harch, r_archetype_calculateArchetype.
    pose proof (totalsAgree_run qs calls H) as Hagree. fold this in Hagree.
    unfold totalsAgree in Hagree. by rewrite Hagree.
  - rewrite Harch, r_archetype_calculateArchetype.
    pose proof (totalsAgree_run qs calls H) as Hagree. fold this in Hagree.
    unfold totalsAgree in Hagree. rewrite Hagree. simpl.
    intros [= Heq]. by apply Hdet.
  - rewrite Hconf. unfold calculateArchetype.
    pose proof (totalsAgree_run qs calls H) as Hagree. fold this in Hagree.
    unfold totalsAgree in Hagree. rewrite Hagree.
    destruct (Z.eqb_spec (len (responses (session this))) 0) as [H0|H0];
      [ clia | exact Hgeb ].
Qed.

Lemma early_completion_is_decisive_witness :
  let this := run STRONG_QUESTIONS answerStrong in
  let scoreTF := currentScoreTF (session this) in
  let scoreJP := currentScoreJP (session this) in
  MINIMUM_QUESTIONS <= getResponseCount this
  /\ 3 * getResponseCount this <= Z.abs scoreTF + Z.abs scoreJP
  /\ hasClearArchetype scoreTF scoreJP = true
  /\ determineArchetype scoreTF scoreJP <> Neutral
  /\ (uniqueAnswerIds STRONG_QUESTIONS ->
      getArchetype this = Some (determineArchetype scoreTF scoreJP)
      /\ getArchetype this <> Some Neutral
      /\ Num.geb (getConfidence this) (Num.of_Z CONFIDENCE_THRESHOLD) = true).
Proof.
  apply (early_completion_is_decisive STRONG_QUESTIONS answerStrong).
  - vm_compute. reflexivity.
  - vm_compute. reflexivity.
Defined.

(** ** The sessions an engine reaches *)

(** X6: in every state an engine reaches, [shouldTerminateEarly] holds only
    of a complete session; the archetype is defined exactly when the session
    is complete; a complete session has at least [MINIMUM_QUESTIONS]
    responses; and while the session is not complete its confidence is the
    estimate for the running totals. *)
Theorem session_consistency (qs : list Question) (calls : list Call) :
  let this := run qs calls in
  (shouldTerminateEarly this = true -> getIsComplete this = true)
  /\ (getIsComplete this = true <-> is_Some (getArchetype this))
  /\ (getIsComplete this = true -> MINIMUM_QUESTIONS <= getResponseCount this)
  /\ (getIsComplete this = false ->
      getConfidence this
      = calculateConfidence (currentScoreTF (session this))
          (currentScoreJP (session this)) (getResponseCount this)).
Proof.
  intros this. pose proof (invariant_run qs calls) as Hinv. fold this in Hinv.
  unfold getIsComplete, getArchetype, getResponseCount, getConfidence.
  destruct Hinv as [_ _ _ Hopen Hclosed].
  destruct (isComplete (session this)) eqn:Hc.
  - destruct (Hclosed eq_refl) as (Harch & _ & Hwhy).
    split; [ done | ]. split; [ | split; [ | done ] ].
    + split; [ | done ]. intros _. rewrite Harch. by eexists.
    + intros _. destruct Hwhy as [->|Hearly]; [ clia | ].
      unfold earlyOnTotals in Hearly. cbv zeta in Hearly.
      apply andb_true_iff in Hearly as [Hmin _]. by apply Z.leb_le.
  - destruct (Hopen eq_refl) as (_ & Hno & Harch & Hconf).
    split; [ congruence | ]. split; [ | split; [ done | done ] ].
    split; [ done | ]. rewrite Harch. by intros [? ?].
Qed.

Section Percent.

Import Num Rounding.


End Percent.



(** ** Only [reset] takes responses back *)

Definition isReset (c : Call) : bool :=
  match c with Reset => true | _ => false end.

Definition noReset (calls : list Call) : bool := forallb (fun c => negb (isReset c)) calls.




(** X9: a complete session is final: whatever calls other than [reset]
    follow, the engine stays exactly as it was. *)
Theorem complete_session_is_final (this : QuizEngine) (calls : list Call) :
  isComplete (session this) = true ->
  noReset calls = true ->
  runFrom this calls = this.
Proof.
  intros Hc. induction calls as [|c calls IH]; intros Hcalls; simpl.
  - reflexivity.
  - simpl in Hcalls. apply andb_true_iff in Hcalls as [Hnr Hcalls].
    assert (Hcall : call c this = this).
    { destruct c as [|questionId answerId now|]; simpl; [ | | discriminate Hnr ].
      - by rewrite getNextQuestion_eq, Hc.
      - by rewrite answerQuestion_eq, Hc. }
    rewrite Hcall. by apply IH.
Qed.

Lemma complete_session_is_final_witness :
  runFrom (run STRONG_QUESTIONS answerStrong)
          [GetNextQuestion; AnswerQuestion "s1" "s1a2" 6; GetNextQuestion]
  = run STRONG_QUESTIONS answerStrong.
Proof.
  apply complete_session_is_final; [ vm_compute | ]; reflexivity.
Defined.

(** ** Bounded weights *)

(** The answers of the bank all satisfy [ok]. *)
Definition allAnswersOk (ok : Answer -> Prop) (qs : list Question) : Prop :=
  Forall (fun q => Forall ok (answers q)) qs.

(** A property of the running totals and the count that holds of a new
    session, and still holds when an answer of the bank is added, holds in
    every state an engine reaches. *)
Lemma totals_induction (ok : Answer -> Prop) (holds : Z -> Z -> Z -> Prop)
    (qs : list Question) :
  allAnswersOk ok qs ->
  holds 0 0 0 ->
  (forall tf jp n a,
     ok a -> holds tf jp n -> holds (tf + scoreTF a) (jp + scoreJP a) (n + 1)) ->
  forall calls,
    holds (currentScoreTF (session (run qs calls)))
          (currentScoreJP (session (run qs calls)))
          (len (responses (session (run qs calls)))).
Proof.
  intros Hok Hstart Hstep calls. unfold run.
  assert (Hnew : questions (newQuizEngine qs) = qs
                 /\ holds (currentScoreTF (session (newQuizEngine qs)))
                          (currentScoreJP (session (newQuizEngine qs)))
                          (len (responses (session (newQuizEngine qs)))))
    by (split; [ reflexivity | exact Hstart ]).
  revert Hnew. generalize (newQuizEngine qs).
  induction calls as [|c calls IH]; intros this [Hqs Hin]; simpl.
  - exact Hin.
  - apply IH. destruct c as [|questionId answerId now|]; simpl.
    + rewrite getNextQuestion_eq.
      destruct (isComplete (session this)); [ done | ].
      by destruct (shouldTerminateEarly this).
    + rewrite answerQuestion_eq.
      destruct (isComplete (session this)); [ done | ].
      destruct (findQuestion this questionId) as [question|] eqn:Hq; [ | done ].
      destruct (findAnswer question answerId) as [answer|] eqn:Ha; [ | done ].
      unfold findQuestion in Hq. rewrite Hqs in Hq.
      apply find_some_elem in Hq as [Hq _]. apply find_some_elem in Ha as [Ha _].
      unfold allAnswersOk in Hok. rewrite Forall_forall in Hok.
      specialize (Hok question Hq). rewrite Forall_forall in Hok.
      specialize (Hstep _ _ _ _ (Hok answer Ha) Hin).
      rewrite <- (len_snoc _ {| questionId := questionId; answerId := answerId;
                               timestamp := now |}) in Hstep.
      cbv zeta. by destruct (_ || _).
    + by split.
Qed.




(** Answers that score at most two points over the two dimensions
    together, as do those that score on one dimension only when the
    weights lie between -2 and 2. *)
Definition scoresAtMostTwo (qs : list Question) : Prop :=
  allAnswersOk (fun a => Z.abs (scoreTF a) + Z.abs (scoreJP a) <= 2) qs.

(** X19: over a bank in which no answer scores more than two points over
    the two dimensions together, the engine never completes a session
    early: in every state it reaches, the magnitudes of the running totals
    add up to at most two points per response, and the session is complete
    exactly when it has [MAXIMUM_QUESTIONS] responses. *)
Theorem no_early_completion (qs : list Question) (calls : list Call) :
  scoresAtMostTwo qs ->
  let this := run qs calls in
  Z.abs (currentScoreTF (session this)) + Z.abs (currentScoreJP (session this))
  <= 2 * getResponseCount this
  /\ (getIsComplete this = true <-> getResponseCount this = MAXIMUM_QUESTIONS).
Proof.
  intros Hw this.
  pose proof (totals_induction _
                (fun tf jp n => Z.abs tf + Z.abs jp <= 2 * n)
                qs Hw ltac:(cbv beta; lia) ltac:(cbv beta; intros; lia) calls)
    as Htotals.
  fold this in Htotals. unfold getResponseCount, getIsComplete.
  pose proof (invariant_run qs calls) as Hinv. fold this in Hinv.
  split; [ exact Htotals | ]. split.
  - intros Hc. destruct (inv_closed _ _ Hinv Hc) as (_ & _ & [Hmax|Hearly]);
      [ exact Hmax | ].
    destruct (Z.eq_dec (len (responses (session this))) MAXIMUM_QUESTIONS)
      as [Heq|Hne]; [ exact Heq | exfalso ].
    pose proof (inv_max _ _ Hinv) as Hmax.
    unfold earlyOnTotals in Hearly. cbv zeta in Hearly.
    apply andb_true_iff in Hearly as [Hmin Hgeb]. apply Z.leb_le in Hmin.
    assert (Hlt : len (responses (session this)) < MAXIMUM_QUESTIONS) by lia.
    pose proof (threshold_needs_three_per_response _ _ _ (conj Hmin Hlt) Hgeb)
      as Hthree.
    clia.
  - intros Hlen. destruct (isComplete (session this)) eqn:Hc; [ reflexivity | ].
    destruct (inv_open _ _ Hinv Hc) as (Hlt & _). lia.
Qed.

Lemma no_early_completion_witness :
  let this := run SAMPLE_QUESTIONS answerAllFirst in
  Z.abs (currentScoreTF (session this)) + Z.abs (currentScoreJP (session this))
  <= 2 * getResponseCount this
  /\ (getIsComplete this = true <-> getResponseCount this = MAXIMUM_QUESTIONS).
Proof.
  apply (no_early_completion SAMPLE_QUESTIONS answerAllFirst).
  apply (bool_decide_unpack _). vm_compute. exact I.
Defined.

(** ** The answer lookup *)

Lemma foldl_insertAnswer_snoc (l : list Answer) (m : gmap string Answer)
    (a : Answer) :
  foldl insertAnswer m (l ++ [a]) = <[a_id a := a]> (foldl insertAnswer m l).
Proof. by rewrite foldl_app. Qed.

(** X11: [buildAnswerLookup] maps an id to the last answer of the bank, in
    the order of the questions and of their answers, that has the id, and
    to nothing when no answer has it. *)
Theorem buildAnswerLookup_last_wins (qs : list Question) (id : string) :
  buildAnswerLookup qs !! id
  = last (filter (fun a => a_id a = id) (allAnswers qs)).
Proof.
  rewrite buildAnswerLookup_allAnswers.
  induction (allAnswers qs) as [|a l IH] using rev_ind; [ reflexivity | ].
  rewrite foldl_insertAnswer_snoc, filter_app.
  rewrite filter_cons, filter_nil.
  destruct (decide (a_id a = id)) as [Heq|Hne].
  - rewrite last_snoc, <- Heq. apply lookup_insert_eq.
  - rewrite app_nil_r, lookup_insert_ne by exact Hne. exact IH.
Qed.

(** ** A bank with enough questions *)

(** Some question of a bank with [MAXIMUM_QUESTIONS] distinct ids has no
    response while the session is not complete. *)
Lemma nextUnanswered_enough qs this :
  invariant qs this ->
  MAXIMUM_QUESTIONS <= len (remove_dups (q_id <$> qs)) ->
  isComplete (session this) = false ->
  exists q, nextUnanswered qs (answeredIds this) = Some q.
Proof.
  intros Hinv Hbank Hc.
  destruct (inv_open _ _ Hinv Hc) as (Hlt & _).
  destruct (nextUnanswered qs (answeredIds this)) as [q|] eqn:Hnext;
    [ by exists q | exfalso ].
  assert (Hall : forall id, id ∈ remove_dups (q_id <$> qs) ->
                            id ∈ (questionId <$> responses (session this))).
  { intros id Hid. rewrite elem_of_remove_dups in Hid.
    apply list_elem_of_fmap in Hid as (q & -> & Hq).
    apply find_none_iff with (x := q) in Hnext; [ | exact Hq ].
    apply negb_false_iff, bool_decide_eq_true in Hnext.
    unfold answeredIds in Hnext. by apply elem_of_list_to_set in Hnext. }
  apply NoDup_submseteq in Hall; [ | apply NoDup_remove_dups ].
  apply submseteq_length in Hall. rewrite length_fmap in Hall.
  unfold len in *. lia.
Qed.

(** X12: over a bank with at least [MAXIMUM_QUESTIONS] distinct question
    ids, [getNextQuestion] returns a question of the bank that has no
    response yet in every state an engine reaches whose session is not
    complete: the questions do not run out before the session completes. *)
Theorem enough_questions_never_run_out (qs : list Question) (calls : list Call) :
  MAXIMUM_QUESTIONS <= len (remove_dups (q_id <$> qs)) ->
  let this := run qs calls in
  getIsComplete this = false ->
  exists q,
    (getNextQuestion this).1 = inr (Some q)
    /\ q ∈ qs
    /\ (q_id q ∉ answeredIds this).
Proof.
  intros Hbank this Hc. unfold getIsComplete in Hc.
  pose proof (invariant_run qs calls) as Hinv. fold this in Hinv.
  destruct (inv_open _ _ Hinv Hc) as (_ & Hno & _).
  destruct (nextUnanswered_enough _ _ Hinv Hbank Hc) as [q Hnext].
  rewrite getNextQuestion_eq, Hc, Hno, (inv_questions _ _ Hinv), Hnext.
  exists q. split; [ reflexivity | ].
  apply find_some_elem in Hnext as [Hq Hid].
  split; [ exact Hq | ].
  by apply negb_true_iff, bool_decide_eq_false in Hid.
Qed.

Lemma enough_questions_never_run_out_witness :
  let this := run SAMPLE_QUESTIONS [AnswerQuestion "q1" "q1a1" 1] in
  exists q,
    (getNextQuestion this).1 = inr (Some q)
    /\ q ∈ SAMPLE_QUESTIONS
    /\ (q_id q ∉ answeredIds this).
Proof.
  apply (enough_questions_never_run_out SAMPLE_QUESTIONS
           [AnswerQuestion "q1" "q1a1" 1]).
  - vm_compute. discriminate.
  - vm_compute. reflexivity.
Defined.

(** ** The page and its engine *)

Lemma run_snoc qs calls c : run qs (calls ++ [c]) = call c (run qs calls).
Proof. unfold run, runFrom. by rewrite foldl_app. Qed.

(** The question that [getNextQuestion] hands out is the one that
    [answerQuestion] finds under its id. *)
Lemma findQuestion_nextUnanswered this ids question :
  nextUnanswered (questions this) ids = Some question ->
  findQuestion this (q_id question) = Some question.
Proof.
  unfold nextUnanswered, findQuestion. intros Hnext.
  apply find_some_split in Hnext as (pre & post & -> & Hq & Hpre).
  apply negb_true_iff, bool_decide_eq_false in Hq.
  apply find_split_some; [ by apply bool_decide_eq_true | ].
  intros p Hp. apply bool_decide_eq_false. intros Heq.
  specialize (Hpre p Hp). apply negb_false_iff, bool_decide_eq_true in Hpre.
  apply Hq. by rewrite <- Heq.
Qed.

Lemma findAnswer_button question answer :
  answer ∈ answers question ->
  exists found, findAnswer question (a_id answer) = Some found
                /\ a_id found = a_id answer.
Proof.
  intros Hin. unfold findAnswer.
  destruct (find _ (answers question)) as [found|] eqn:Hfind.
  - exists found. split; [ reflexivity | ].
    apply find_some_elem in Hfind as [_ Hid]. by apply bool_decide_eq_true in Hid.
  - apply find_none_iff with (x := answer) in Hfind; [ | exact Hin ].
    by apply bool_decide_eq_false in Hfind.
Qed.

(** What holds of the page between two events. *)
Record pageInvariant (qs : list Question) (p : Quiz.State) : Prop := {
  page_engine : exists calls, Quiz.quizEngine p = run qs calls;
  page_keys :
    responseKey <$> Quiz.responses p
    = responseKey <$> responses (session (Quiz.quizEngine p));
  page_once : NoDup (questionId <$> Quiz.responses p);
  page_open :
    Quiz.isComplete p = false ->
    isComplete (session (Quiz.quizEngine p)) = false
    /\ Quiz.currentQuestion p
       = nextUnanswered qs (answeredIds (Quiz.quizEngine p))
    /\ Quiz.result p = None
    /\ (Quiz.responses p <> [] -> is_Some (Quiz.currentQuestion p));
  page_closed :
    Quiz.isComplete p = true ->
    Quiz.result p
    = Some (calculateArchetype (Quiz.responses p) (buildAnswerLookup qs))
    /\ Quiz.profile p
       = Some (r_archetype (calculateArchetype (Quiz.responses p)
                                               (buildAnswerLookup qs)),
               r_confidence (calculateArchetype (Quiz.responses p)
                                                (buildAnswerLookup qs)))
    /\ Quiz.responses p <> []
    /\ (isComplete (session (Quiz.quizEngine p)) = true
        \/ nextUnanswered qs (answeredIds (Quiz.quizEngine p)) = None);
}.

Lemma getNextQuestion_new qs :
  getNextQuestion (newQuizEngine qs)
  = (inr (nextUnanswered qs ∅), newQuizEngine qs).
Proof. by rewrite getNextQuestion_eq. Qed.

Lemma pageInvariant_mount qs stored : pageInvariant qs (Quiz.mount qs stored).
Proof.
  unfold Quiz.mount. rewrite getNextQuestion_new.
  split; simpl; try done.
  - by exists [].
  - constructor.
Qed.

Lemma render_asking qs p question :
  pageInvariant qs p -> Quiz.render p = Quiz.Asking question ->
  Quiz.isComplete p = false /\ Quiz.currentQuestion p = Some question.
Proof.
  intros Hinv. unfold Quiz.render.
  destruct (_ && _); [ discriminate | ].
  destruct (Quiz.isComplete p) eqn:Hc.
  - destruct (page_closed _ _ Hinv Hc) as (-> & _). discriminate.
  - destruct (Quiz.result p);
      destruct (Quiz.currentQuestion p); try discriminate;
      by intros [= ->].
Qed.

(** A click on an answer button is a call of [answerQuestion] that returns:
    the engine is not complete, and it finds the question and the answer. *)
Lemma button_is_accepted qs p question answer :
  pageInvariant qs p ->
  Quiz.render p = Quiz.Asking question ->
  answer ∈ answers question ->
  isComplete (session (Quiz.quizEngine p)) = false
  /\ (q_id question ∉ answeredIds (Quiz.quizEngine p))
  /\ findQuestion (Quiz.quizEngine p) (q_id question) = Some question
  /\ exists found, findAnswer question (a_id answer) = Some found.
Proof.
  intros Hinv Hrender Hin.
  destruct (render_asking _ _ _ Hinv Hrender) as [Hc Hq].
  destruct (page_open _ _ Hinv Hc) as (Hopen & Hnext & _).
  destruct (page_engine _ _ Hinv) as [calls Hrun].
  pose proof (invariant_run qs calls) as Hengine. rewrite <- Hrun in Hengine.
  rewrite Hq in Hnext. symmetry in Hnext.
  split; [ exact Hopen | ]. split; [ | split ].
  - apply find_some_elem in Hnext as [_ Hid].
    by apply negb_true_iff, bool_decide_eq_false in Hid.
  - rewrite <- (inv_questions _ _ Hengine) in Hnext.
    by apply (findQuestion_nextUnanswered _ _ _ Hnext).
  - destruct (findAnswer_button _ _ Hin) as (found & Hfound & _). by exists found.
Qed.

Lemma completed_page qs newResponses p :
  newResponses = Quiz.responses p ->
  Quiz.completeQuiz qs newResponses p
  = Quiz.setArchetype
      (r_archetype (calculateArchetype (Quiz.responses p) (buildAnswerLookup qs)))
      (r_confidence (calculateArchetype (Quiz.responses p) (buildAnswerLookup qs)))
      (Quiz.setIsComplete true
         (Quiz.setResult
            (Some (calculateArchetype (Quiz.responses p) (buildAnswerLookup qs)))
            p)).
Proof. by intros ->. Qed.

Lemma pageInvariant_click qs c p :
  pageInvariant qs p -> pageInvariant qs (Quiz.click qs c p).
Proof.
  intros Hinv. unfold Quiz.click.
  destruct (Quiz.render p) as [|r| |question] eqn:Hrender; try exact Hinv.
  destruct (answers question !! Quiz.button c) as [answer|] eqn:Hbutton;
    [ | exact Hinv ].
  apply list_elem_of_lookup_2 in Hbutton.
  destruct (button_is_accepted _ _ _ _ Hinv Hrender Hbutton)
    as (Hopen & Hfresh & Hfind & found & Hfound).
  destruct (render_asking _ _ _ Hinv Hrender) as [Hc Hq].
  destruct (page_engine _ _ Hinv) as [calls Hrun].
  pose proof (invariant_run qs (calls ++ [AnswerQuestion (q_id question)
                                           (a_id answer) (Quiz.engineNow c)]))
    as Hengine'.
  rewrite run_snoc, <- Hrun in Hengine'. simpl in Hengine'.
  pose proof (invariant_run qs calls) as Hengine. rewrite <- Hrun in Hengine.
  unfold Quiz.handleAnswer. rewrite Hq. cbv zeta.
  simpl Quiz.quizEngine.
  set (response := {| questionId := q_id question; answerId := a_id answer;
                      timestamp := Quiz.now c |}).
  assert (Hkeys : forall t,
             responseKey <$> Quiz.responses p ++ [response]
             = responseKey <$> responses (session (Quiz.quizEngine p))
                 ++ [{| questionId := q_id question; answerId := a_id answer;
                        timestamp := t |}]).
  { intros t. rewrite !fmap_app. by rewrite (page_keys _ _ Hinv). }
  assert (Honce : NoDup (questionId <$> Quiz.responses p ++ [response])).
  { rewrite fmap_app. apply NoDup_app. split; [ apply (page_once _ _ Hinv) | ].
    split; [ | apply NoDup_singleton ].
    intros id Hid Hid'. apply list_elem_of_singleton in Hid'. subst id.
    apply Hfresh. unfold answeredIds. apply elem_of_list_to_set.
    assert (Hids : forall rs : list QuizResponse,
               questionId <$> rs = fst <$> (responseKey <$> rs)).
    { intros rs. rewrite <- list_fmap_compose. reflexivity. }
    rewrite Hids, <- (page_keys _ _ Hinv), <- Hids. exact Hid. }
  revert Hengine'.
  rewrite answerQuestion_eq, Hopen, Hfind, Hfound. cbv zeta.
  set (engineResponse := {| questionId := q_id question;
                            answerId := a_id answer;
                            timestamp := Quiz.engineNow c |}).
  set (this1 := with_session
                  (recorded found engineResponse (session (Quiz.quizEngine p)))
                  (Quiz.quizEngine p)).
  set (engine := if _ || _ then _ else this1).
  intros Hengine'. change (invariant qs engine) in Hengine'.
  assert (Hrun' : exists calls', engine = run qs calls').
  { exists (calls ++ [AnswerQuestion (q_id question) (a_id answer)
                                     (Quiz.engineNow c)]).
    rewrite run_snoc, <- Hrun. simpl.
    rewrite answerQuestion_eq, Hopen, Hfind, Hfound. reflexivity. }
  assert (Hresponses : responses (session engine)
                       = responses (session (Quiz.quizEngine p))
                           ++ [engineResponse]).
  { unfold engine. by destruct (_ || _). }
  assert (Hqs : questions engine = qs) by apply (inv_questions _ _ Hengine').
  assert (Hdone : forall engine',
             responses (session engine') = responses (session engine) ->
             (exists calls', engine' = run qs calls') ->
             isComplete (session engine') = true
             \/ nextUnanswered qs (answeredIds engine') = None ->
             pageInvariant qs
               (Quiz.completeQuiz qs (Quiz.responses p ++ [response])
                  (Quiz.setQuizEngine engine'
                     (Quiz.setResponses (Quiz.responses p ++ [response]) p)))).
  { intros engine' Hsame Hreach Hwhy.
    rewrite completed_page by reflexivity.
    split; simpl; try done.
    - rewrite Hsame, Hresponses. apply Hkeys.
    - intros _. repeat split; try done. by destruct (Quiz.responses p). }
  destruct (shouldTerminateEarly engine) eqn:Hearly; simpl; rewrite Hearly.
  - apply Hdone; [ reflexivity | exact Hrun' | left ].
    destruct (isComplete (session engine)) eqn:Hc'; [ reflexivity | ].
    destruct (inv_open _ _ Hengine' Hc') as (_ & Hno & _). congruence.
  - rewrite getNextQuestion_eq, Hearly.
    destruct (isComplete (session engine)) eqn:Hc'.
    + apply (Hdone engine); [ reflexivity | exact Hrun' | by left ].
    + rewrite Hqs.
      destruct (nextUnanswered qs (answeredIds engine)) as [next|] eqn:Hnext.
      * split; simpl; try done.
        -- rewrite Hresponses. apply Hkeys.
        -- intros _. repeat split; try done. apply (page_open _ _ Hinv Hc).
        -- rewrite Hc. discriminate.
      * apply (Hdone engine); [ reflexivity | exact Hrun' | by right ].
Qed.

Lemma pageInvariant_visit qs stored clicks :
  pageInvariant qs (Quiz.visit qs stored clicks).
Proof.
  unfold Quiz.visit.
  pose proof (pageInvariant_mount qs stored) as Hstart.
  revert Hstart. generalize (Quiz.mount qs stored).
  induction clicks as [|c clicks IH]; intros p Hinv; simpl.
  - exact Hinv.
  - apply IH. by apply pageInvariant_click.
Qed.

(** X13: the page never makes [answerQuestion] throw: whenever it shows a
    question, the question is one of the bank that has no response yet, and
    the call that a click on any of its answer buttons makes returns. *)
Theorem page_answers_are_accepted (qs : list Question)
    (stored : option (Archetype * number)) (clicks : list Quiz.Click)
    (question : Question) (answer : Answer) (engineNow : Z) :
  let p := Quiz.visit qs stored clicks in
  Quiz.render p = Quiz.Asking question ->
  answer ∈ answers question ->
  (answerQuestion (q_id question) (a_id answer) engineNow (Quiz.quizEngine p)).1
  = inr tt
  /\ question ∈ qs
  /\ (q_id question ∉ answeredIds (Quiz.quizEngine p)).
Proof.
  intros p Hrender Hin.
  pose proof (pageInvariant_visit qs stored clicks) as Hinv. fold p in Hinv.
  destruct (button_is_accepted _ _ _ _ Hinv Hrender Hin)
    as (Hopen & Hfresh & Hfind & found & Hfound).
  split; [ | split; [ | exact Hfresh ] ].
  - by rewrite answerQuestion_eq, Hopen, Hfind, Hfound.
  - destruct (page_engine _ _ Hinv) as [calls Hrun].
    unfold findQuestion in Hfind.
    rewrite Hrun, (inv_questions _ _ (invariant_run qs calls)) in Hfind.
    by apply find_some_elem in Hfind as [Hq _].
Qed.

Definition firstButton (t : Z) : Quiz.Click :=
  {| Quiz.button := 0; Quiz.now := t; Quiz.engineNow := t + 1 |}.

Lemma page_answers_are_accepted_witness :
  let p := Quiz.visit SAMPLE_QUESTIONS None [firstButton 1] in
  let question :=
    mkQuestion "q2" J_P (mkAnswer "q2a1" 0 2) (mkAnswer "q2a2" 0 (-2)) in
  (answerQuestion (q_id question) "q2a2" 5 (Quiz.quizEngine p)).1 = inr tt
  /\ question ∈ SAMPLE_QUESTIONS
  /\ (q_id question ∉ answeredIds (Quiz.quizEngine p)).
Proof.
  apply (page_answers_are_accepted SAMPLE_QUESTIONS None [firstButton 1]
           (mkQuestion "q2" J_P (mkAnswer "q2a1" 0 2) (mkAnswer "q2a2" 0 (-2)))
           (mkAnswer "q2a2" 0 (-2)) 5).
  - vm_compute. reflexivity.
  - simpl. apply elem_of_cons. right. apply elem_of_cons. by left.
Defined.

(** X14: the page and its engine record the same answers: the engine is in
    a state that calls on a new engine reach, and the responses of the page
    name the same questions and answers, in the same order, as the responses
    of the engine's session; only the timestamps may differ. *)
Theorem page_mirrors_engine (qs : list Question)
    (stored : option (Archetype * number)) (clicks : list Quiz.Click) :
  let p := Quiz.visit qs stored clicks in
  (exists calls, Quiz.quizEngine p = run qs calls)
  /\ responseKey <$> Quiz.responses p
     = responseKey <$> responses (session (Quiz.quizEngine p))
  /\ len (Quiz.responses p) = getResponseCount (Quiz.quizEngine p).
Proof.
  intros p.
  pose proof (pageInvariant_visit qs stored clicks) as Hinv. fold p in Hinv.
  split; [ apply (page_engine _ _ Hinv) | ].
  split; [ apply (page_keys _ _ Hinv) | ].
  apply keys_len, (page_keys _ _ Hinv).
Qed.

(** X15: through the page no question is answered twice: the responses of
    the page, and those of its engine, hold one response per question id;
    there are at most [MAXIMUM_QUESTIONS] of them; and while the page shows
    a question there are fewer, so the number it shows for the question is
    at most [MAXIMUM_QUESTIONS]. *)
Theorem page_answers_once (qs : list Question)
    (stored : option (Archetype * number)) (clicks : list Quiz.Click) :
  let p := Quiz.visit qs stored clicks in
  NoDup (questionId <$> Quiz.responses p)
  /\ NoDup (questionId <$> responses (session (Quiz.quizEngine p)))
  /\ len (Quiz.responses p) <= MAXIMUM_QUESTIONS
  /\ (forall question,
        Quiz.render p = Quiz.Asking question ->
        len (Quiz.responses p) + 1 <= MAXIMUM_QUESTIONS).
Proof.
  intros p.
  pose proof (pageInvariant_visit qs stored clicks) as Hinv. fold p in Hinv.
  destruct (page_engine _ _ Hinv) as [calls Hrun].
  pose proof (invariant_run qs calls) as Hengine. rewrite <- Hrun in Hengine.
  pose proof (keys_len _ _ (page_keys _ _ Hinv)) as Hlen.
  assert (Hids : forall rs : list QuizResponse,
             questionId <$> rs = fst <$> (responseKey <$> rs)).
  { intros rs. rewrite <- list_fmap_compose. reflexivity. }
  split; [ apply (page_once _ _ Hinv) | ]. split; [ | split ].
  - rewrite Hids, <- (page_keys _ _ Hinv), <- Hids. apply (page_once _ _ Hinv).
  - rewrite Hlen. apply (inv_max _ _ Hengine).
  - intros question Hrender.
    destruct (render_asking _ _ _ Hinv Hrender) as [Hc _].
    destruct (page_open _ _ Hinv Hc) as (Hopen & _).
    destruct (inv_open _ _ Hengine Hopen) as (Hlt & _).
    rewrite Hlen. lia.
Qed.

(** X16: the result of the page is the result of its engine: a page that is
    not complete has no result; the result of a complete page is
    [calculateArchetype] of the engine's responses and lookup, and its
    archetype and confidence are what the page has stored in the archetype
    context; and when the engine's session is complete, so is the page,
    and the archetype and confidence of the session are those of the
    result. *)
Theorem page_result_is_engine_result (qs : list Question)
    (stored : option (Archetype * number)) (clicks : list Quiz.Click) :
  let p := Quiz.visit qs stored clicks in
  let this := Quiz.quizEngine p in
  let result := calculateArchetype (responses (session this)) (answerLookup this) in
  (Quiz.isComplete p = false -> Quiz.result p = None)
  /\ (Quiz.isComplete p = true ->
      Quiz.result p = Some result
      /\ Quiz.profile p = Some (r_archetype result, r_confidence result))
  /\ (getIsComplete this = true ->
      Quiz.isComplete p = true
      /\ getArchetype this = Some (r_archetype result)
      /\ getConfidence this = r_confidence result).
Proof.
  intros p this result.
  pose proof (pageInvariant_visit qs stored clicks) as Hinv. fold p in Hinv.
  destruct (page_engine _ _ Hinv) as [calls Hrun]. fold this in Hrun.
  pose proof (invariant_run qs calls) as Hengine. rewrite <- Hrun in Hengine.
  assert (Hresult : calculateArchetype (Quiz.responses p) (buildAnswerLookup qs)
                    = result).
  { unfold result. rewrite (inv_lookup _ _ Hengine).
    apply calculateArchetype_keys, (page_keys _ _ Hinv). }
  split; [ | split ].
  - intros Hc. apply (page_open _ _ Hinv Hc).
  - intros Hc. destruct (page_closed _ _ Hinv Hc) as (Hr & Hp & _).
    by rewrite Hr, Hp, Hresult.
  - unfold getIsComplete, getArchetype, getConfidence. intros Hc.
    destruct (inv_closed _ _ Hengine Hc) as (Harch & Hconf & _).
    split; [ | by split ].
    destruct (Quiz.isComplete p) eqn:Hpc; [ reflexivity | ].
    destruct (page_open _ _ Hinv Hpc) as (Hopen & _).
    fold this in Hopen. congruence.
Qed.

(** X17: the page completes exactly when, after an answer, its engine has
    completed the session or the bank has no question left; over a bank with
    at least [MAXIMUM_QUESTIONS] distinct question ids, exactly when the
    engine has completed the session. *)
Theorem page_completes_with_engine (qs : list Question)
    (stored : option (Archetype * number)) (clicks : list Quiz.Click) :
  let p := Quiz.visit qs stored clicks in
  let this := Quiz.quizEngine p in
  (Quiz.isComplete p = true
   <-> Quiz.responses p <> []
       /\ (getIsComplete this = true
           \/ nextUnanswered qs (answeredIds this) = None))
  /\ (MAXIMUM_QUESTIONS <= len (remove_dups (q_id <$> qs)) ->
      Quiz.isComplete p = getIsComplete this).
Proof.
  intros p this. unfold getIsComplete.
  pose proof (pageInvariant_visit qs stored clicks) as Hinv. fold p in Hinv.
  destruct (page_engine _ _ Hinv) as [calls Hrun]. fold this in Hrun.
  pose proof (invariant_run qs calls) as Hengine. rewrite <- Hrun in Hengine.
  split.
  - split.
    + intros Hc. destruct (page_closed _ _ Hinv Hc) as (_ & _ & Hne & Hwhy).
      by split.
    + intros [Hne Hwhy].
      destruct (Quiz.isComplete p) eqn:Hc; [ reflexivity | exfalso ].
      destruct (page_open _ _ Hinv Hc) as (Hopen & Hnext & _ & Hsome).
      fold this in Hopen, Hnext.
      destruct Hwhy as [Hdone|Hnone]; [ congruence | ].
      destruct (Hsome Hne) as [q Hq]. congruence.
  - intros Hbank. destruct (Quiz.isComplete p) eqn:Hc.
    + destruct (page_closed _ _ Hinv Hc) as (_ & _ & _ & [Hdone|Hnone]);
        [ done | ].
      fold this in Hnone.
      destruct (isComplete (session this)) eqn:Hec; [ reflexivity | ].
      destruct (nextUnanswered_enough _ _ Hengine Hbank Hec) as [q Hq].
      congruence.
    + destruct (page_open _ _ Hinv Hc) as (Hopen & _). by fold this in Hopen.
Qed.

(** X18: a visitor for whom the archetype context holds an archetype gets
    no answer button: whatever the clicks, the page stays as it was mounted,
    with no response and a new engine. *)
Theorem page_of_known_visitor (qs : list Question) (known : Archetype * number)
    (clicks : list Quiz.Click) :
  Quiz.visit qs (Some known) clicks = Quiz.mount qs (Some known)
  /\ Quiz.render (Quiz.visit qs (Some known) clicks) = Quiz.AlreadyTaken
  /\ Quiz.responses (Quiz.visit qs (Some known) clicks) = []
  /\ Quiz.quizEngine (Quiz.visit qs (Some known) clicks) = newQuizEngine qs.
Proof.
  assert (Hmount : Quiz.render (Quiz.mount qs (Some known)) = Quiz.AlreadyTaken
                   /\ Quiz.responses (Quiz.mount qs (Some known)) = []
                   /\ Quiz.quizEngine (Quiz.mount qs (Some known))
                      = newQuizEngine qs).
  { unfold Quiz.mount. by rewrite getNextQuestion_new. }
  assert (Hvisit : Quiz.visit qs (Some known) clicks = Quiz.mount qs (Some known)).
  { unfold Quiz.visit. induction clicks as [|c clicks IH]; [ reflexivity | ].
    simpl. unfold Quiz.click at 2.
    destruct Hmount as (-> & _). exact IH. }
  by rewrite Hvisit.
Qed.
